(** * Customer support text mining: a shallow embedding of [src/text_mining.py]

    The pipeline is: read corpus, [normalize_text], [tokenize],
    [filter_tokens], [count_tokens], [save_outputs] (which ends with
    [write_run_log]).  Python values are modelled as follows.

    - A Python [str] is the list of its Unicode code points ([list N]), so
      that [len] is [length] and a one-character [replace] is a [map].
    - A Python [int] is a [Z].
    - A [set[str]] is a [gset (list N)].
    - A [Counter] is an association list in insertion order, because the
      order of [counts.items()] is the row order of the data frame.
    - A two-column [DataFrame] is the list of its rows, top to bottom.
    - File-system writes are recorded as a trace of effects inside a small
      state-and-exception monad.

    The Unicode tables ([unicodedata.normalize], [str.lower]), the sort
    behind [DataFrame.sort_values] and the table renderer
    [DataFrame.to_string] belong to libraries outside the repository: they
    are section variables, with the part of their contract that is used
    stated as a hypothesis.  Failures of the operating system in a file
    operation (permissions, a full disk) are outside the model: an effect
    always succeeds. *)

From Stdlib Require Import ZArith NArith Ascii String.
From stdpp Require Import base list gmap sorting pretty.

Local Open Scope Z_scope.

(** ** Python strings *)

Abbreviation pystr := (list N).

(** An ASCII literal of the source, as a list of code points. *)
Definition lit (s : string) : pystr :=
  map N_of_ascii (list_ascii_of_string s).

(** [str(n)] and the [{n}] of an f-string, for an [int]. *)
Definition str_of_int (n : Z) : pystr := lit (pretty n).

(** [old.join(parts)]. *)
Fixpoint join (sep : pystr) (parts : list pystr) : pystr :=
  match parts with
  | [] => []
  | [p] => p
  | p :: ps => p ++ sep ++ join sep ps
  end.

(** [text.replace(old, new)] for one-character [old] and [new]. *)
Definition replace_char (old new : N) (text : pystr) : pystr :=
  map (fun c => if decide (c = old) then new else c) text.

(** [s in text]: [s] occurs as a contiguous substring. *)
Definition substring_of (s text : pystr) : Prop :=
  exists before after, text = before ++ s ++ after.

(** The code points named in the source and in the specification. *)
Definition APOSTROPHE : N := 39%N.              (* U+0027 *)
Definition QUOTATION_MARK : N := 34%N.          (* U+0022 *)
Definition LEFT_SINGLE_QUOTE : N := 8216%N.     (* U+2018 *)
Definition RIGHT_SINGLE_QUOTE : N := 8217%N.    (* U+2019 *)
Definition LEFT_DOUBLE_QUOTE : N := 8220%N.     (* U+201C *)
Definition RIGHT_DOUBLE_QUOTE : N := 8221%N.    (* U+201D *)

(** The curly (typographic) quotation marks and apostrophes: the left and
    right single and double quotation marks U+2018, U+2019, U+201C,
    U+201D. *)
Definition is_curly_quote (c : N) : bool :=
  bool_decide (c = LEFT_SINGLE_QUOTE) || bool_decide (c = RIGHT_SINGLE_QUOTE)
  || bool_decide (c = LEFT_DOUBLE_QUOTE) || bool_decide (c = RIGHT_DOUBLE_QUOTE).

(** ** Text processing helpers *)

Section Normalizer.
(** [unicodedata.normalize] with form NFKC. *)
Variable nfkc : pystr -> pystr.

Definition normalize_text (text : pystr) : pystr :=
  let text := nfkc text in
  let text :=
    replace_char RIGHT_DOUBLE_QUOTE QUOTATION_MARK
      (replace_char LEFT_DOUBLE_QUOTE QUOTATION_MARK
         (replace_char RIGHT_SINGLE_QUOTE APOSTROPHE text)) in
  text.
End Normalizer.

(** On text that is already in NFKC form the normalisation changes
    nothing; this instance evaluates the code on such text. *)
Definition nfkc_of_normalized (text : pystr) : pystr := text.

(** *** The tokenizer's regular expression *)

(** The class [[a-z0-9]]. *)
Definition is_alnum (c : N) : bool :=
  ((97 <=? c) && (c <=? 122) || (48 <=? c) && (c <=? 57))%N.

(** The longest prefix of class characters, and what follows it: the
    greedy [[a-z0-9]+] (empty when it does not match). *)
Fixpoint span_alnum (s : pystr) : pystr * pystr :=
  match s with
  | c :: s' =>
      if is_alnum c then let '(run, rest) := span_alnum s' in (c :: run, rest)
      else ([], s)
  | [] => ([], [])
  end.

(** One attempt of [[a-z0-9]+(?:'[a-z0-9]+)?] at the start of [s]: the
    matched text, or [None].  The first group is greedy; the optional
    group is taken when an apostrophe and at least one class character
    follow.  Giving characters of the first run back cannot help, since
    the optional group would then have to start at a class character. *)
Definition match_at (s : pystr) : option pystr :=
  let '(word, rest) := span_alnum s in
  match word with
  | [] => None
  | _ :: _ =>
      match rest with
      | q :: rest' =>
          if decide (q = APOSTROPHE) then
            match fst (span_alnum rest') with
            | [] => Some word
            | suffix => Some (word ++ q :: suffix)
            end
          else Some word
      | [] => Some word
      end
  end.

(** [re.findall]: scan from the left; where the pattern matches, emit the
    match and resume after it, otherwise move one character on.
    [consumed] counts the characters of the current match still to be
    skipped. *)
Fixpoint findall_from (consumed : nat) (s : pystr) : list pystr :=
  match s with
  | [] => []
  | _ :: s' =>
      match consumed with
      | S k => findall_from k s'
      | O =>
          match match_at s with
          | Some tok => tok :: findall_from (pred (length tok)) s'
          | None => findall_from 0 s'
          end
      end
  end.

Definition findall (s : pystr) : list pystr := findall_from 0 s.

Section Tokenizer.
(** [str.lower]. *)
Variable lower : pystr -> pystr.

Definition tokenize (text : pystr) : list pystr := findall (lower text).
End Tokenizer.

(** [str.lower] on ASCII text. *)
Definition ascii_lower (text : pystr) : pystr :=
  map (fun c => if ((65 <=? c) && (c <=? 90))%N then (c + 32)%N else c) text.

(** [len(x)] as a Python [int]. *)
Definition len {A : Type} (l : list A) : Z := Z.of_nat (length l).

(** The extra words that [build_stopword_set] adds to the NLTK list. *)
Definition EXTRA_STOPWORDS : list pystr :=
  map lit
    ["would"; "like"; "also"; "still"; "really"; "just";
     "get"; "got"; "going"; "go"; "one"; "can"; "could";
     "im"; "ive"; "youre"; "theyre"; "weve";
     "dont"; "doesnt"; "didnt";
     "want"; "need"; "know"; "back"; "time";
     "thanks"; "thank"; "please"].

(** [[t for t in tokens if len(t) >= min_len and t not in sw]]. *)
Fixpoint filter_tokens (tokens : list pystr) (sw : gset pystr) (min_len : Z)
  : list pystr :=
  match tokens with
  | [] => []
  | t :: tokens' =>
      if bool_decide (min_len <= len t) && bool_decide (t ∉ sw)
      then t :: filter_tokens tokens' sw min_len
      else filter_tokens tokens' sw min_len
  end.

(** ** Data frames and the frequency aggregator *)

(** A row of the two-column frame: the columns [word] and [total].  A
    count is at most the length of the token list, far inside the range
    of the 64-bit column, so [Z] is exact. *)
Abbreviation Row := (pystr * Z)%type.
Abbreviation DataFrame := (list (pystr * Z)).

Definition word (r : Row) : pystr := fst r.
Definition total (r : Row) : Z := snd r.

(** [mapping[elem] = mapping.get(elem, 0) + 1] on a dictionary kept in
    insertion order: a known key is updated in place, a new key goes to
    the end. *)
Fixpoint counter_add (elem : pystr) (mapping : list (pystr * Z))
  : list (pystr * Z) :=
  match mapping with
  | [] => [(elem, 0 + 1)]
  | (k, v) :: mapping' =>
      if decide (k = elem) then (k, v + 1) :: mapping'
      else (k, v) :: counter_add elem mapping'
  end.

(** [Counter(tokens)], as the list [counts.items()]. *)
Definition Counter (tokens : list pystr) : list (pystr * Z) :=
  foldl (fun mapping elem => counter_add elem mapping) [] tokens.

(** The order in which [sort_values] on column [total] with
    [ascending=False] leaves two adjacent rows. *)
Definition total_ge (r1 r2 : Row) : Prop := total r2 <= total r1.

Section Aggregator.
(** [df.sort_values] on column [total], [ascending=False]. *)
Variable sort_values_desc : DataFrame -> DataFrame.

(** [reset_index(drop=True)] renumbers the index and leaves the rows. *)
Definition count_tokens (tokens : list pystr) : DataFrame :=
  let counts := Counter tokens in
  let df := counts in
  let df := sort_values_desc df in
  df.
End Aggregator.

(** [freq_df[mask]] for a boolean mask with one entry per row. *)
Fixpoint select_rows (mask : list bool) (df : DataFrame) : DataFrame :=
  match mask, df with
  | b :: mask', r :: df' =>
      if b then r :: select_rows mask' df' else select_rows mask' df'
  | _, _ => []
  end.

(** [freq_df[freq_df["total"] >= threshold]]. *)
Definition rows_ge (freq_df : DataFrame) (threshold : Z) : DataFrame :=
  select_rows (map (fun r => bool_decide (threshold <= total r)) freq_df) freq_df.

(** [df.head(n)]. *)
Definition head (n : nat) (df : DataFrame) : DataFrame := take n df.

(** ** Paths *)

(** A [pathlib] path: the anchor (drive and root) and the parts below it. *)
Record Path := mkPath { anchor : pystr; parts : list pystr }.

(** [p / name] for a one-part relative [name]. *)
Definition path_div (p : Path) (name : pystr) : Path :=
  mkPath (anchor p) (parts p ++ [name]).

(** [p.parent]; the parent of an anchor is the anchor. *)
Definition parent (p : Path) : Path :=
  mkPath (anchor p) (removelast (parts p)).

(** [str(p)], with the separator of the platform. *)
Definition path_str (sep : pystr) (p : Path) : pystr :=
  anchor p ++ join sep (parts p).

(** ** Effects *)

(** What [plt.bar], the labels, the title and [savefig] put in the chart. *)
Record Figure := mkFigure {
  bar_x : list pystr;
  bar_height : list Z;
  xlabel : pystr;
  ylabel : pystr;
  title : pystr
}.

Inductive effect :=
| Mkdir (p : Path)
| WriteCsv (p : Path) (df : DataFrame)
| WriteExcel (p : Path) (sheets : list (pystr * DataFrame))
| WriteText (p : Path) (content : pystr)
| SaveFig (p : Path) (fig : Figure)
| NltkDownload (resource : pystr).

Inductive exn :=
| FileNotFoundError (message : pystr)
| LookupError.

Inductive result (A : Type) :=
| Returned (a : A)
| Raised (e : exn).
Arguments Returned {A} a.
Arguments Raised {A} e.

(** The part of the world a run changes: the effects performed so far,
    oldest first, and the NLTK stopword corpus installed locally. *)
Record World := mkWorld {
  trace : list effect;
  nltk_corpus : option (list pystr)
}.

Definition M (A : Type) : Type := World -> result A * World.

Definition ret {A} (a : A) : M A := fun w => (Returned a, w).

Definition bind {A B} (m : M A) (k : A -> M B) : M B :=
  fun w =>
    match m w with
    | (Returned a, w') => k a w'
    | (Raised e, w') => (Raised e, w')
    end.

Definition raise {A} (e : exn) : M A := fun w => (Raised e, w).

Definition perform (e : effect) : M unit :=
  fun w => (Returned tt, mkWorld (trace w ++ [e]) (nltk_corpus w)).

Notation "'let*' x ':=' m 'in' k" := (bind m (fun x => k))
  (at level 10, x name, m at level 100, k at level 200).
Notation "m ';;' k" := (bind m (fun _ => k))
  (at level 100, k at level 200, right associativity).

(** The paths of the files a trace wrote. *)
Definition written_path (e : effect) : option Path :=
  match e with
  | WriteCsv p _ | WriteExcel p _ | WriteText p _ | SaveFig p _ => Some p
  | Mkdir _ | NltkDownload _ => None
  end.

Definition written_paths (t : list effect) : list Path :=
  omap written_path t.

(** ** The program *)

(** The newline of the string literals. *)
Definition NL : pystr := [10%N].

Definition DEFAULT_INPUT_FILE : pystr := lit "customer_support_text_corpus.txt".

Section Program.
(** The platform: the path separator and the resolved [__file__]. *)
Variable sep : pystr.
Variable script_file : Path.
(** The libraries: NFKC, [str.lower], [sort_values], [to_string]. *)
Variable nfkc : pystr -> pystr.
Variable lower : pystr -> pystr.
Variable sort_values_desc : DataFrame -> DataFrame.
Variable to_string : DataFrame -> pystr.
(** The surroundings of a run: the decoded text of the file at a path
    ([None] when nothing is there), what [nltk.download] would install
    ([None] when the fetch fails), and the formatted time of the clock
    when the log is written. *)
Variable input_text : Path -> option pystr.
Variable nltk_remote : option (list pystr).
Variable now : pystr.

Definition SCRIPT_DIR : Path := parent script_file.
Definition PROJECT_ROOT : Path := parent SCRIPT_DIR.
Definition DATA_DIR : Path := path_div PROJECT_ROOT (lit "data").
Definition OUTPUT_DIR : Path := path_div PROJECT_ROOT (lit "output").

Definition fmt_path (p : Path) : pystr := path_str sep p.

(** [p.exists()] and [p.read_text(encoding=utf-8, errors=replace)]. *)
Definition exists_ (p : Path) : bool := bool_decide (is_Some (input_text p)).

Definition read_text (p : Path) : M pystr :=
  match input_text p with
  | Some text => ret text
  | None => raise (FileNotFoundError (fmt_path p))
  end.

(** [stopwords.words] with argument english. *)
Definition stopwords_words : M (list pystr) :=
  fun w =>
    match nltk_corpus w with
    | Some ws => (Returned ws, w)
    | None => (Raised LookupError, w)
    end.

(** [nltk.download] with argument stopwords. *)
Definition nltk_download : M unit :=
  fun w =>
    (Returned tt,
     mkWorld (trace w ++ [NltkDownload (lit "stopwords")])
             (match nltk_remote with
              | Some ws => Some ws
              | None => nltk_corpus w
              end)).

Definition ensure_nltk_stopwords : M unit :=
  fun w =>
    match stopwords_words w with
    | (Returned _, w') => (Returned tt, w')
    | (Raised LookupError, w') => nltk_download w'
    | (Raised e, w') => (Raised e, w')
    end.

Definition build_stopword_set : M (gset pystr) :=
  ensure_nltk_stopwords ;;
  let* ws := stopwords_words in
  let sw : gset pystr := list_to_set ws in
  let sw := sw ∪ list_to_set EXTRA_STOPWORDS in
  ret sw.

(** *** Output helpers *)

Definition write_run_log (input_path : Path) (freq_df : DataFrame)
    (threshold : Z) (output_dir : Path) : M Path :=
  let log_path := path_div output_dir (lit "run_log.txt") in
  let top20 := head 20 freq_df in
  let df_ge := rows_ge freq_df threshold in
  let lines : list pystr :=
    [ lit "Customer Support Text Mining - Run Log";
      concat (replicate 40 (lit "="));
      lit "Run timestamp: " ++ now;
      lit "Project root: " ++ fmt_path PROJECT_ROOT;
      lit "Input file:    " ++ fmt_path input_path;
      lit "";
      lit "Unique tokens (after filtering): " ++ str_of_int (len freq_df);
      lit "Tokens with total >= " ++ str_of_int threshold ++ lit ": "
        ++ str_of_int (len df_ge);
      lit "";
      lit "Top 20 tokens:";
      to_string top20;
      lit "";
      lit "Generated outputs:";
      lit "- " ++ fmt_path (path_div output_dir (lit "token_frequencies_all.csv"));
      lit "- " ++ fmt_path (path_div output_dir
                    (lit "token_frequencies_ge_" ++ str_of_int threshold ++ lit ".csv"));
      lit "- " ++ fmt_path (path_div output_dir (lit "text_mining_results.xlsx"));
      lit "- " ++ fmt_path (path_div output_dir (lit "summary_top20.txt"));
      lit "- " ++ fmt_path (path_div output_dir
                    (lit "top_tokens_ge_" ++ str_of_int threshold ++ lit ".png"));
      lit "- " ++ fmt_path log_path ] in
  perform (WriteText log_path (join NL lines ++ NL)) ;;
  ret log_path.

Definition save_outputs (freq_df : DataFrame) (threshold : Z) : M unit :=
  perform (Mkdir OUTPUT_DIR) ;;
  let df_all := freq_df in
  let df_ge := rows_ge freq_df threshold in
  (* Output paths *)
  let csv_all_path := path_div OUTPUT_DIR (lit "token_frequencies_all.csv") in
  let csv_ge_path :=
    path_div OUTPUT_DIR
      (lit "token_frequencies_ge_" ++ str_of_int threshold ++ lit ".csv") in
  let xlsx_path := path_div OUTPUT_DIR (lit "text_mining_results.xlsx") in
  let txt_path := path_div OUTPUT_DIR (lit "summary_top20.txt") in
  let png_path :=
    path_div OUTPUT_DIR
      (lit "top_tokens_ge_" ++ str_of_int threshold ++ lit ".png") in
  (* Save CSVs *)
  perform (WriteCsv csv_all_path df_all) ;;
  perform (WriteCsv csv_ge_path df_ge) ;;
  (* Save Excel *)
  perform (WriteExcel xlsx_path
             [(lit "all_tokens", df_all);
              (lit "tokens_ge_" ++ str_of_int threshold, df_ge)]) ;;
  (* Save Top-20 summary text *)
  let top20 := head 20 df_all in
  let summary_lines : list pystr :=
    [ lit "Top 20 tokens:";
      to_string top20;
      lit "";
      lit "Tokens with total >= " ++ str_of_int threshold ++ lit ": "
        ++ str_of_int (len df_ge);
      lit "" ] in
  perform (WriteText txt_path (join NL summary_lines)) ;;
  (* Save chart *)
  let plot_df := if bool_decide (50 < len df_ge) then head 50 df_ge else df_ge in
  (if bool_decide (0 < len plot_df) then
     perform (SaveFig png_path
                (mkFigure (map word plot_df) (map total plot_df)
                   (lit "word") (lit "total")
                   (lit "Top tokens (frequency >= " ++ str_of_int threshold
                      ++ lit ")")))
   else
     perform (WriteText (path_div OUTPUT_DIR (lit "chart_note.txt"))
                (lit "No tokens met the threshold of " ++ str_of_int threshold
                   ++ lit ", so no chart was generated." ++ NL))) ;;
  (* Write a run log *)
  let input_path := path_div DATA_DIR DEFAULT_INPUT_FILE in
  write_run_log input_path freq_df threshold OUTPUT_DIR ;;
  ret tt.

(** *** Main *)

Definition main : M unit :=
  perform (Mkdir OUTPUT_DIR) ;;
  let input_path := path_div DATA_DIR DEFAULT_INPUT_FILE in
  if negb (exists_ input_path) then
    raise (FileNotFoundError
             (lit "Input file not found: " ++ fmt_path input_path ++ NL
              ++ lit "Make sure your corpus is located at: "
              ++ fmt_path (path_div DATA_DIR DEFAULT_INPUT_FILE) ++ NL
              ++ lit "Current project root is: " ++ fmt_path PROJECT_ROOT))
  else
    let* raw_text := read_text input_path in
    let raw_text := normalize_text nfkc raw_text in
    let* sw := build_stopword_set in
    let tokens := tokenize lower raw_text in
    let tokens := filter_tokens tokens sw 4 in
    let freq_df := count_tokens sort_values_desc tokens in
    save_outputs freq_df 250.
End Program.

(** The world in which a run starts: nothing done yet. *)
Definition initial_world (corpus : option (list pystr)) : World :=
  mkWorld [] corpus.

(** ** The artifacts of a run *)

Section Artifacts.
Variable script_file : Path.
Variable threshold : Z.

Definition csv_all_path : Path :=
  path_div (OUTPUT_DIR script_file) (lit "token_frequencies_all.csv").
Definition csv_ge_path : Path :=
  path_div (OUTPUT_DIR script_file)
    (lit "token_frequencies_ge_" ++ str_of_int threshold ++ lit ".csv").
Definition xlsx_path : Path :=
  path_div (OUTPUT_DIR script_file) (lit "text_mining_results.xlsx").
Definition txt_path : Path :=
  path_div (OUTPUT_DIR script_file) (lit "summary_top20.txt").
Definition png_path : Path :=
  path_div (OUTPUT_DIR script_file)
    (lit "top_tokens_ge_" ++ str_of_int threshold ++ lit ".png").
Definition chart_note_path : Path :=
  path_div (OUTPUT_DIR script_file) (lit "chart_note.txt").
Definition log_path : Path :=
  path_div (OUTPUT_DIR script_file) (lit "run_log.txt").
Definition input_path : Path :=
  path_div (DATA_DIR script_file) DEFAULT_INPUT_FILE.

(** The paths that the run log lists under its heading of generated
    outputs, in the order of the log. *)
Definition log_manifest : list Path :=
  [csv_all_path; csv_ge_path; xlsx_path; txt_path; png_path; log_path].
End Artifacts.

Section RunLog.
Variable sep : pystr.
Variable script_file : Path.
Variable to_string : DataFrame -> pystr.
Variable now : pystr.

(** The lines of the run log above its list of generated outputs. *)
Definition log_header (freq_df : DataFrame) (threshold : Z) : list pystr :=
  [ lit "Customer Support Text Mining - Run Log";
    concat (replicate 40 (lit "="));
    lit "Run timestamp: " ++ now;
    lit "Project root: " ++ path_str sep (PROJECT_ROOT script_file);
    lit "Input file:    " ++ path_str sep (input_path script_file);
    lit "";
    lit "Unique tokens (after filtering): " ++ str_of_int (len freq_df);
    lit "Tokens with total >= " ++ str_of_int threshold ++ lit ": "
      ++ str_of_int (len (rows_ge freq_df threshold));
    lit "";
    lit "Top 20 tokens:";
    to_string (take 20 freq_df);
    lit "" ].

(** The text of a run log with a given list of generated outputs. *)
Definition log_text (freq_df : DataFrame) (threshold : Z)
    (manifest : list Path) : pystr :=
  join NL
    (log_header freq_df threshold
       ++ lit "Generated outputs:"
       :: ((fun p => lit "- " ++ path_str sep p) <$> manifest))
  ++ NL.
End RunLog.

(** The chart of a frame: one bar per row, in row order. *)
Definition is_bar_chart_of (plot_df : DataFrame) (fig : Figure) : Prop :=
  bar_x fig = map word plot_df /\ bar_height fig = map total plot_df.

(** The charts that a trace saved. *)
Definition saved_charts (t : list effect) : list (Path * Figure) :=
  omap (fun e => match e with SaveFig p fig => Some (p, fig) | _ => None end) t.

(** ** A platform on which to evaluate the program *)

(** A POSIX checkout of the repository. *)
Definition posix_sep : pystr := lit "/".
Definition posix_script_file : Path :=
  mkPath (lit "/") [lit "repo"; lit "src"; lit "text_mining.py"].

(** A renderer that writes one line per row, standing for [to_string]. *)
Definition plain_to_string (df : DataFrame) : pystr :=
  join NL (map (fun r => word r ++ lit " " ++ str_of_int (total r)) df).

Definition example_now : pystr := lit "2026-01-01 09:00:00".

(** A directory [data] without the corpus file, and one with it. *)
Definition no_input (p : Path) : option pystr := None.
Definition input_with (text : pystr) (p : Path) : option pystr :=
  if decide (parts p = [lit "repo"; lit "data"; DEFAULT_INPUT_FILE])
  then Some text else None.

(** The frequency table that [main] hands to [save_outputs], for a raw
    text and an NLTK word list. *)
Definition main_table (nfkc lower : pystr -> pystr)
    (sort_values_desc : DataFrame -> DataFrame)
    (ws : list pystr) (raw_text : pystr) : DataFrame :=
  count_tokens sort_values_desc
    (filter_tokens (tokenize lower (normalize_text nfkc raw_text))
       (list_to_set ws ∪ list_to_set EXTRA_STOPWORDS) 4).

(** The stopword corpus that is at hand once a missing one has been
    fetched, and the download that this takes. *)
Definition corpus_at_hand (nltk_remote : option (list pystr)) (w : World)
  : option (list pystr) :=
  match nltk_corpus w with
  | Some ws => Some ws
  | None => nltk_remote
  end.

Definition corpus_download (w : World) : list effect :=
  match nltk_corpus w with
  | Some _ => []
  | None => [NltkDownload (lit "stopwords")]
  end.

(** ** Vocabulary of the specification *)

(** A string of one or more characters of the class [[a-z0-9]]. *)
Definition alnum_run (s : pystr) : Prop :=
  s <> [] /\ Forall (fun c => is_alnum c = true) s.

(** The strings that the pattern matches: one or more class characters,
    optionally followed by an apostrophe and one or more class
    characters. *)
Inductive matches_pattern : pystr -> Prop :=
| matches_word a :
    alnum_run a -> matches_pattern a
| matches_contraction a b :
    alnum_run a -> alnum_run b -> matches_pattern (a ++ APOSTROPHE :: b).

(** [tok] stands in [text] from index [i] on. *)
Definition occurs_at (text : pystr) (i : nat) (tok : pystr) : Prop :=
  take (length tok) (drop i text) = tok.

(** A maximal run matching the pattern: an occurrence of a match that no
    other occurrence of a match contains. *)
Definition maximal_run (text : pystr) (i : nat) (tok : pystr) : Prop :=
  matches_pattern tok /\ occurs_at text i tok
  /\ forall j tok',
       matches_pattern tok' -> occurs_at text j tok' ->
       (j <= i)%nat -> (i + length tok <= j + length tok')%nat ->
       j = i /\ tok' = tok.

(** [toks] are the maximal runs of [text], from left to right. *)
Definition lists_maximal_runs (text : pystr) (toks : list pystr) : Prop :=
  exists starts : list nat,
    length starts = length toks
    /\ StronglySorted lt starts
    /\ forall i tok, (i, tok) ∈ zip starts toks <-> maximal_run text i tok.

(** [toks] are the successive matches of a scan from the left: where no
    match starts the scan moves one character on; where one starts it
    takes the longest and resumes behind it. *)
Inductive scans : pystr -> list pystr -> Prop :=
| scans_end : scans [] []
| scans_skip c s toks :
    (forall tok, matches_pattern tok -> ~ tok `prefix_of` c :: s) ->
    scans s toks ->
    scans (c :: s) toks
| scans_match s tok rest toks :
    s = tok ++ rest ->
    matches_pattern tok ->
    (forall tok', matches_pattern tok' -> tok' `prefix_of` s ->
                  (length tok' <= length tok)%nat) ->
    scans rest toks ->
    scans s (tok :: toks).

(** The number of times [w] occurs in [tokens]. *)
Definition occurrences (w : pystr) (tokens : list pystr) : Z :=
  len (filter (fun u => u = w) tokens).

(** The distinct tokens, in the order in which each is first met. *)
Fixpoint first_occurrences (tokens : list pystr) : list pystr :=
  match tokens with
  | [] => []
  | t :: tokens' => t :: filter (fun u => u <> t) (first_occurrences tokens')
  end.

(** The sum of column [total]. *)
Definition sum_totals (df : DataFrame) : Z :=
  foldr (fun r acc => total r + acc) 0 df.

(** The rows of a frame with a given count, top to bottom. *)
Definition rows_with_total (c : Z) (df : DataFrame) : DataFrame :=
  filter (fun r => total r = c) df.

(** Rows of equal count stand in the order in which their tokens are
    first met in the input. *)
Definition ties_in_encounter_order (tokens : list pystr) (table : DataFrame)
  : Prop :=
  forall c,
    rows_with_total c table
    = (fun w => (w, c))
        <$> filter (fun w => occurrences w tokens = c) (first_occurrences tokens).

(** A sort is stable when rows of equal count keep their order. *)
Definition stable (sort : DataFrame -> DataFrame) : Prop :=
  forall c df, rows_with_total c (sort df) = rows_with_total c df.

(** ** Sorts that meet the contract of [sort_values] *)

(** A stable descending sort: insertion from the right, a row going in
    front of the first row that has no larger count.  This is what
    [sort_values] does with [kind=stable]. *)
Fixpoint insert_desc (r : Row) (df : DataFrame) : DataFrame :=
  match df with
  | [] => [r]
  | r' :: df' =>
      if bool_decide (total r' <= total r) then r :: df
      else r' :: insert_desc r df'
  end.

Definition stable_sort_desc (df : DataFrame) : DataFrame :=
  foldr insert_desc [] df.

(** A descending sort that is not stable: sort the reversed frame.
    Rows of equal count come out in reverse. *)
Definition reversing_sort_desc (df : DataFrame) : DataFrame :=
  stable_sort_desc (reverse df).

(** Eighteen distinct tokens that pass the stopword filter, each met once. *)
Definition eighteen_tokens : list pystr :=
  map lit
    ["account"; "billing"; "charger"; "delivery"; "email"; "firmware";
     "gateway"; "headset"; "invoice"; "keyboard"; "laptop"; "modem";
     "network"; "order"; "password"; "refund"; "router"; "screen"].

(** ** The frequency aggregator *)

Section CounterFacts.
Implicit Types (d : list (pystr * Z)) (tokens : list pystr) (w : pystr).

Lemma occurrences_nil w : occurrences w [] = 0.
Proof. reflexivity. Qed.

Lemma occurrences_cons w t tokens :
  occurrences w (t :: tokens)
  = (if decide (t = w) then 1 else 0) + occurrences w tokens.
Proof.
  unfold occurrences, len. rewrite filter_cons.
  destruct (decide (t = w)); simpl; lia.
Qed.

Lemma occurrences_nonneg w tokens : 0 <= occurrences w tokens.
Proof. unfold occurrences, len. lia. Qed.

Lemma occurrences_pos w tokens : w ∈ tokens <-> 1 <= occurrences w tokens.
Proof.
  induction tokens as [|t tokens IH].
  - rewrite occurrences_nil. split; [by intros ?%elem_of_nil | lia].
  - rewrite occurrences_cons, elem_of_cons.
    pose proof (occurrences_nonneg w tokens).
    destruct (decide (t = w)) as [->|Hne].
    + split; [lia | by left].
    + rewrite IH. split; [intros [?|?]; [congruence | lia] | intros; right; lia].
Qed.

Lemma first_occurrences_filter (P : pystr -> Prop) `{!forall x, Decision (P x)}
    tokens :
  first_occurrences (filter P tokens) = filter P (first_occurrences tokens).
Proof.
  induction tokens as [|t tokens IH]; [done|].
  simpl. rewrite !filter_cons. destruct (decide (P t)) as [Ht|Ht].
  - simpl. f_equal. rewrite IH, !list_filter_filter.
    apply list_filter_iff. naive_solver.
  - rewrite IH, list_filter_filter. apply list_filter_iff.
    naive_solver.
Qed.

Lemma elem_of_first_occurrences w tokens :
  w ∈ first_occurrences tokens <-> w ∈ tokens.
Proof.
  induction tokens as [|t tokens IH]; [done|].
  simpl. rewrite !elem_of_cons, list_elem_of_filter, IH.
  destruct (decide (w = t)); naive_solver.
Qed.

Lemma NoDup_first_occurrences tokens : NoDup (first_occurrences tokens).
Proof.
  induction tokens as [|t tokens IH]; [constructor|].
  simpl. constructor.
  - rewrite list_elem_of_filter. naive_solver.
  - by apply NoDup_filter.
Qed.

(** [counter_add] on a key that is present, and on one that is not. *)
Lemma counter_add_old w d :
  NoDup (d.*1) -> w ∈ d.*1 ->
  counter_add w d
  = (fun kv => (kv.1, kv.2 + (if decide (kv.1 = w) then 1 else 0))) <$> d.
Proof.
  induction d as [|[k v] d IH]; intros Hnd Hin; [by apply elem_of_nil in Hin|].
  simpl in *. apply NoDup_cons in Hnd as [Hk Hnd].
  destruct (decide (k = w)) as [->|Hne].
  - f_equal. symmetry. rewrite <- (list_fmap_id d) at 2.
    apply list_fmap_ext. intros i [k' v'] Hi. simpl.
    destruct (decide (k' = w)) as [->|]; [|f_equal; lia].
    exfalso. apply Hk. apply list_elem_of_fmap.
    exists (w, v'). split; [done|]. by eapply list_elem_of_lookup_2.
  - f_equal; [f_equal; lia|]. apply IH; [done|].
    apply elem_of_cons in Hin as [?|?]; [congruence | done].
Qed.

Lemma counter_add_new w d :
  w ∉ d.*1 -> counter_add w d = d ++ [(w, 1)].
Proof.
  induction d as [|[k v] d IH]; intros Hin; [done|].
  simpl in *. apply not_elem_of_cons in Hin as [Hne Hin].
  destruct (decide (k = w)); [congruence|]. by rewrite IH.
Qed.

(** The dictionary after counting [tokens] into [d]: the old keys keep
    their places and gain their occurrences, the new keys follow in
    the order in which they are first met. *)
Lemma counter_fold d tokens :
  NoDup (d.*1) ->
  foldl (fun mapping elem => counter_add elem mapping) d tokens
  = ((fun kv => (kv.1, kv.2 + occurrences kv.1 tokens)) <$> d)
    ++ ((fun w => (w, occurrences w tokens))
          <$> first_occurrences (filter (fun u => u ∉ d.*1) tokens)).
Proof.
  revert d. induction tokens as [|t tokens IH]; intros d Hnd.
  - simpl. rewrite app_nil_r. rewrite <- (list_fmap_id d) at 1.
    apply list_fmap_ext. intros i [k v] _. simpl.
    rewrite occurrences_nil. f_equal. lia.
  - simpl. destruct (decide (t ∈ d.*1)) as [Hin|Hin].
    + rewrite counter_add_old by done.
      assert (Hkeys : ((fun kv : pystr * Z =>
                 (kv.1, kv.2 + (if decide (kv.1 = t) then 1 else 0))) <$> d).*1
               = d.*1).
      { rewrite <- list_fmap_compose. by apply list_fmap_ext. }
      rewrite IH by (by rewrite Hkeys). rewrite Hkeys.
      rewrite filter_cons_False by naive_solver.
      rewrite <- list_fmap_compose. f_equal.
      * apply list_fmap_ext. intros i [k v] _. simpl.
        rewrite occurrences_cons.
        destruct (decide (k = t)), (decide (t = k)); try congruence;
          f_equal; lia.
      * apply list_fmap_ext. intros i w Hi. f_equal.
        rewrite occurrences_cons. destruct (decide (t = w)) as [->|]; [|lia].
        apply list_elem_of_lookup_2 in Hi. rewrite elem_of_first_occurrences in Hi.
        apply list_elem_of_filter in Hi as [Hi _]. done.
    + rewrite counter_add_new by done.
      assert (Hnd' : NoDup ((d ++ [(t, 1)]).*1)).
      { rewrite fmap_app. apply NoDup_app. split; [done|]. split.
        - intros x Hx ->%list_elem_of_singleton. done.
        - apply NoDup_singleton. }
      assert (Hf : filter (fun u => u ∉ (d ++ [(t, 1)]).*1) tokens
                   = filter (fun u => u <> t) (filter (fun u => u ∉ d.*1) tokens)).
      { rewrite list_filter_filter. apply list_filter_iff. intros x.
        rewrite fmap_app, not_elem_of_app. simpl.
        rewrite list_elem_of_singleton. naive_solver. }
      rewrite IH, Hf, first_occurrences_filter by done.
      rewrite filter_cons_True by done.
      rewrite fmap_app. simpl. rewrite <- app_assoc. simpl. f_equal.
      * apply list_fmap_ext. intros i [k v] Hi. simpl.
        rewrite occurrences_cons.
        destruct (decide (t = k)) as [->|]; [|f_equal; lia].
        exfalso. apply Hin. apply list_elem_of_fmap. exists (k, v).
        split; [done|]. by eapply list_elem_of_lookup_2.
      * f_equal.
        { rewrite occurrences_cons. destruct (decide (t = t)); [f_equal; lia | done]. }
        apply list_fmap_ext. intros i w Hi. f_equal.
        rewrite occurrences_cons. destruct (decide (t = w)) as [->|]; [|lia].
        apply list_elem_of_lookup_2 in Hi.
        apply list_elem_of_filter in Hi as [Hi _]. done.
Qed.

(** [Counter(tokens).items()]: one entry per distinct token, in order
    of first occurrence, with the number of its occurrences. *)
Lemma Counter_items tokens :
  Counter tokens
  = (fun w => (w, occurrences w tokens)) <$> first_occurrences tokens.
Proof.
  unfold Counter. rewrite counter_fold by constructor. simpl.
  do 2 f_equal. induction tokens as [|t tokens IH]; [done|].
  rewrite filter_cons_True by apply not_elem_of_nil. by f_equal.
Qed.
End CounterFacts.

(** *** The two sorts meet the contract *)

Section SortFacts.
Implicit Types (r : Row) (df : DataFrame).

Lemma total_ge_trans : Transitive total_ge.
Proof. unfold total_ge. intros x y z ??. lia. Qed.
#[local] Existing Instance total_ge_trans.

Lemma insert_desc_perm r df : insert_desc r df ≡ₚ r :: df.
Proof.
  induction df as [|r' df IH]; [done|]. simpl.
  case_bool_decide; [done|]. rewrite IH. apply Permutation_swap.
Qed.

Lemma insert_desc_sorted r df :
  StronglySorted total_ge df -> StronglySorted total_ge (insert_desc r df).
Proof.
  induction df as [|r' df IH]; intros Hs; simpl.
  - repeat constructor.
  - apply StronglySorted_inv in Hs as [Hs Hall]. case_bool_decide as Hle.
    + constructor; [by constructor|]. constructor; [done|].
      eapply Forall_impl; [exact Hall|]. unfold total_ge. intros; simpl in *; lia.
    + constructor; [by apply IH|].
      rewrite insert_desc_perm. constructor; [unfold total_ge; lia | done].
Qed.

Lemma insert_desc_rows_with_total c r df :
  rows_with_total c (insert_desc r df) = rows_with_total c (r :: df).
Proof.
  unfold rows_with_total. induction df as [|r' df IH]; [done|]. simpl.
  case_bool_decide as Hle; [done|].
  rewrite (filter_cons _ r'), IH, !filter_cons.
  destruct (decide (total r' = c)), (decide (total r = c)); try done. lia.
Qed.

Lemma stable_sort_desc_perm df : stable_sort_desc df ≡ₚ df.
Proof.
  induction df as [|r df IH]; [done|]. simpl.
  by rewrite insert_desc_perm, IH.
Qed.

Lemma stable_sort_desc_sorted df : Sorted total_ge (stable_sort_desc df).
Proof.
  apply StronglySorted_Sorted.
  induction df as [|r df IH]; [constructor|]. simpl. by apply insert_desc_sorted.
Qed.

(** Stability: rows of equal count keep their order. *)
Lemma stable_sort_desc_stable c df :
  rows_with_total c (stable_sort_desc df) = rows_with_total c df.
Proof.
  induction df as [|r df IH]; [done|]. simpl.
  rewrite insert_desc_rows_with_total. unfold rows_with_total in *.
  by rewrite !filter_cons, IH.
Qed.

Lemma stable_sort_desc_is_stable : stable stable_sort_desc.
Proof. intros c df. apply stable_sort_desc_stable. Qed.

Lemma reversing_sort_desc_perm df : reversing_sort_desc df ≡ₚ df.
Proof.
  unfold reversing_sort_desc. by rewrite stable_sort_desc_perm, reverse_Permutation.
Qed.

Lemma reversing_sort_desc_sorted df : Sorted total_ge (reversing_sort_desc df).
Proof. apply stable_sort_desc_sorted. Qed.
End SortFacts.

(** *** What [count_tokens] returns *)

Lemma sum_totals_perm (df1 df2 : DataFrame) :
  df1 ≡ₚ df2 -> sum_totals df1 = sum_totals df2.
Proof.
  induction 1; simpl in *; lia.
Qed.

Lemma sum_totals_counter_add (w : pystr) (d : DataFrame) :
  sum_totals (counter_add w d) = sum_totals d + 1.
Proof.
  induction d as [|[k v] d IH]; simpl; [done|].
  destruct (decide (k = w)); simpl in *; unfold total in *; simpl in *; lia.
Qed.

Lemma sum_totals_Counter (tokens : list pystr) :
  sum_totals (Counter tokens) = len tokens.
Proof.
  unfold Counter.
  assert (H : forall d, sum_totals
             (foldl (fun mapping elem => counter_add elem mapping) d tokens)
             = sum_totals d + len tokens).
  { induction tokens as [|t tokens IH]; intros d; simpl.
    - unfold len. simpl. lia.
    - rewrite IH, sum_totals_counter_add. unfold len. simpl length. lia. }
  rewrite H. simpl. lia.
Qed.

Lemma elem_of_Counter (r : Row) (tokens : list pystr) :
  r ∈ Counter tokens <-> word r ∈ tokens /\ total r = occurrences (word r) tokens.
Proof.
  rewrite Counter_items, list_elem_of_fmap. destruct r as [w c]. simpl. split.
  - intros (w' & [= -> ->] & Hin). by rewrite elem_of_first_occurrences in Hin.
  - intros [Hin ->]. exists w. by rewrite elem_of_first_occurrences.
Qed.

Lemma Counter_words (tokens : list pystr) :
  (Counter tokens).*1 = first_occurrences tokens.
Proof.
  rewrite Counter_items, <- list_fmap_compose. apply list_fmap_id.
Qed.

Section AggregatorFacts.
Variable sort_values_desc : DataFrame -> DataFrame.
Hypothesis sort_values_perm : forall df, sort_values_desc df ≡ₚ df.

Lemma count_tokens_perm tokens :
  count_tokens sort_values_desc tokens ≡ₚ Counter tokens.
Proof. apply sort_values_perm. Qed.

Lemma elem_of_count_tokens (r : Row) tokens :
  r ∈ count_tokens sort_values_desc tokens
  <-> word r ∈ tokens /\ total r = occurrences (word r) tokens.
Proof. by rewrite count_tokens_perm, elem_of_Counter. Qed.

(** C3.  The counts of the frequency table add up to the length of the
    token sequence it was built from, and the table of the empty
    sequence is the empty table.  [count_tokens] is a total function:
    no input raises. *)
Theorem count_tokens_sum_of_counts tokens :
  sum_totals (count_tokens sort_values_desc tokens) = len tokens
  /\ count_tokens sort_values_desc [] = [].
Proof.
  split.
  - rewrite (sum_totals_perm _ _ (count_tokens_perm tokens)).
    apply sum_totals_Counter.
  - apply Permutation_nil_r. apply (count_tokens_perm []).
Qed.

(** C10.  Every row of the frequency table has a count of at least one,
    in fact the number of occurrences of its token, and a token has a
    row exactly when it occurs in the input. *)
Theorem count_tokens_rows_positive tokens :
  (forall r, r ∈ count_tokens sort_values_desc tokens ->
             1 <= total r /\ total r = occurrences (word r) tokens)
  /\ (forall w, w ∈ (count_tokens sort_values_desc tokens).*1 <-> w ∈ tokens).
Proof.
  split.
  - intros r [Hin Htot]%elem_of_count_tokens. split; [|done].
    rewrite Htot. by apply occurrences_pos.
  - intros w. rewrite count_tokens_perm, Counter_words.
    apply elem_of_first_occurrences.
Qed.
End AggregatorFacts.

Lemma rows_with_total_fmap (c : Z) (f : pystr -> Z) (l : list pystr) :
  rows_with_total c ((fun w => (w, f w)) <$> l)
  = (fun w => (w, c)) <$> filter (fun w => f w = c) l.
Proof.
  unfold rows_with_total. induction l as [|w l IH]; [done|].
  rewrite fmap_cons, !filter_cons, IH. unfold total. simpl.
  destruct (decide (f w = c)) as [<-|]; done.
Qed.

Lemma Counter_ties_in_encounter_order (tokens : list pystr) :
  ties_in_encounter_order tokens (Counter tokens).
Proof. intros c. rewrite Counter_items. apply rows_with_total_fmap. Qed.

Section TableOrder.
Variable sort_values_desc : DataFrame -> DataFrame.
Hypothesis sort_values_perm : forall df, sort_values_desc df ≡ₚ df.
Hypothesis sort_values_sorted : forall df, Sorted total_ge (sort_values_desc df).

(** C4, as amended.  The frequency table has one row for each distinct
    token of the input and no other row, and its counts never increase
    from one row to any later row.  The rows of a given count are the
    tokens with that count, in an order that the library sort fixes;
    it is the order of first occurrence when that sort is stable. *)
Theorem count_tokens_unique_sorted tokens :
  let table := count_tokens sort_values_desc tokens in
  NoDup (table.*1)
  /\ (forall w, w ∈ table.*1 <-> w ∈ tokens)
  /\ StronglySorted total_ge table
  /\ (forall c,
        rows_with_total c table
        ≡ₚ (fun w => (w, c))
             <$> filter (fun w => occurrences w tokens = c)
                   (first_occurrences tokens))
  /\ (stable sort_values_desc -> ties_in_encounter_order tokens table).
Proof.
  pose proof (count_tokens_perm _ sort_values_perm tokens) as Hperm.
  simpl. repeat split.
  - rewrite Hperm, Counter_words. apply NoDup_first_occurrences.
  - rewrite Hperm, Counter_words. apply elem_of_first_occurrences.
  - rewrite Hperm, Counter_words. apply elem_of_first_occurrences.
  - apply Sorted_StronglySorted; [apply total_ge_trans | apply sort_values_sorted].
  - intros c. unfold rows_with_total. rewrite Hperm.
    apply reflexive_eq, Counter_ties_in_encounter_order.
  - intros Hstable c. unfold count_tokens. rewrite Hstable.
    apply Counter_ties_in_encounter_order.
Qed.
End TableOrder.

(** The table of a stable sort, on the tokens of the example of the
    specification after filtering. *)
Lemma count_tokens_unique_sorted_witness :
  let tokens := map lit ["reset"; "password"; "help"; "password"; "reset"; "password"] in
  let table := count_tokens stable_sort_desc tokens in
  (forall df, stable_sort_desc df ≡ₚ df)
  /\ (forall df, Sorted total_ge (stable_sort_desc df))
  /\ table = [(lit "password", 3); (lit "reset", 2); (lit "help", 1)]
  /\ NoDup (table.*1)
  /\ (forall w, w ∈ table.*1 <-> w ∈ tokens)
  /\ StronglySorted total_ge table
  /\ (forall c,
        rows_with_total c table
        ≡ₚ (fun w => (w, c))
             <$> filter (fun w => occurrences w tokens = c)
                   (first_occurrences tokens))
  /\ ties_in_encounter_order tokens table.
Proof.
  intros tokens table.
  split; [exact stable_sort_desc_perm|].
  split; [exact stable_sort_desc_sorted|].
  split; [reflexivity|].
  destruct (count_tokens_unique_sorted stable_sort_desc
              stable_sort_desc_perm stable_sort_desc_sorted tokens)
    as (Hnodup & Hwords & Hsorted & Hties & Hstable).
  repeat (split; [assumption|]).
  exact (Hstable stable_sort_desc_is_stable).
Defined.

(** C4, as stated, fails.  [sort_values] is called with its default
    algorithm, which the library documents as not stable; all that the
    call promises is a sorted rearrangement.  [reversing_sort_desc] keeps
    that promise, and under it the eighteen rows of count one do not
    come out in the order in which their tokens were met. *)
Lemma count_tokens_ties_not_in_encounter_order :
  (forall df, reversing_sort_desc df ≡ₚ df)
  /\ (forall df, Sorted total_ge (reversing_sort_desc df))
  /\ ~ ties_in_encounter_order eighteen_tokens
         (count_tokens reversing_sort_desc eighteen_tokens).
Proof.
  split; [exact reversing_sort_desc_perm|].
  split; [exact reversing_sort_desc_sorted|].
  intros H. specialize (H 1). vm_compute in H. discriminate H.
Qed.

Lemma count_tokens_sum_of_counts_witness :
  let tokens := map lit ["reset"; "password"; "help"; "password"; "reset"; "password"] in
  (forall df, stable_sort_desc df ≡ₚ df)
  /\ sum_totals (count_tokens stable_sort_desc tokens) = len tokens
  /\ count_tokens stable_sort_desc [] = [].
Proof.
  intros tokens. split; [exact stable_sort_desc_perm|].
  exact (count_tokens_sum_of_counts stable_sort_desc stable_sort_desc_perm tokens).
Defined.

Lemma count_tokens_rows_positive_witness :
  let tokens := map lit ["reset"; "password"; "help"; "password"; "reset"; "password"] in
  (forall df, stable_sort_desc df ≡ₚ df)
  /\ (forall r, r ∈ count_tokens stable_sort_desc tokens ->
                1 <= total r /\ total r = occurrences (word r) tokens)
  /\ (forall w, w ∈ (count_tokens stable_sort_desc tokens).*1 <-> w ∈ tokens).
Proof.
  intros tokens. split; [exact stable_sort_desc_perm|].
  exact (count_tokens_rows_positive stable_sort_desc stable_sort_desc_perm tokens).
Defined.

(** ** The stopword filter *)

Lemma filter_tokens_filter (tokens : list pystr) (sw : gset pystr) (min_len : Z) :
  filter_tokens tokens sw min_len
  = filter (fun t => min_len <= len t /\ t ∉ sw) tokens.
Proof.
  induction tokens as [|t tokens IH]; [done|].
  simpl. rewrite filter_cons, IH.
  destruct (decide (min_len <= len t /\ t ∉ sw)) as [[H1 H2]|Hn].
  - by rewrite !bool_decide_eq_true_2.
  - case_bool_decide; [|done]. case_bool_decide; [|done]. naive_solver.
Qed.

Section FilterFacts.
Variable sort_values_desc : DataFrame -> DataFrame.
Hypothesis sort_values_perm : forall df, sort_values_desc df ≡ₚ df.

(** C2.  The stopword filter keeps exactly the tokens that are long
    enough and not stopwords, each as often as it occurs and in the
    order of the input; so every row of the frequency table built from
    its result has a token that is long enough and not a stopword. *)
Theorem filter_tokens_retains_iff tokens sw min_len :
  let kept := filter_tokens tokens sw min_len in
  (forall t, t ∈ kept <-> t ∈ tokens /\ min_len <= len t /\ t ∉ sw)
  /\ kept = filter (fun t => min_len <= len t /\ t ∉ sw) tokens
  /\ sublist kept tokens
  /\ (forall r, r ∈ count_tokens sort_values_desc kept ->
                min_len <= len (word r) /\ word r ∉ sw).
Proof.
  simpl. rewrite filter_tokens_filter.
  assert (Hin : forall t,
    t ∈ filter (fun t => min_len <= len t /\ t ∉ sw) tokens
    <-> t ∈ tokens /\ min_len <= len t /\ t ∉ sw).
  { intros t. rewrite list_elem_of_filter. naive_solver. }
  split; [exact Hin|]. split; [done|]. split; [apply sublist_filter|].
  intros r [Hr _]%elem_of_count_tokens; [|done].
  apply Hin in Hr as (_ & ? & ?). done.
Qed.
End FilterFacts.

Lemma filter_tokens_retains_iff_witness :
  let tokens := map lit ["i"; "can't"; "reset"; "my"; "password"; "please"; "help"] in
  let sw : gset pystr := list_to_set EXTRA_STOPWORDS in
  let kept := filter_tokens tokens sw 4 in
  (forall df, stable_sort_desc df ≡ₚ df)
  /\ kept = map lit ["can't"; "reset"; "password"; "help"]
  /\ (forall t, t ∈ kept <-> t ∈ tokens /\ 4 <= len t /\ t ∉ sw)
  /\ kept = filter (fun t => 4 <= len t /\ t ∉ sw) tokens
  /\ sublist kept tokens
  /\ (forall r, r ∈ count_tokens stable_sort_desc kept ->
                4 <= len (word r) /\ word r ∉ sw).
Proof.
  intros tokens sw kept.
  split; [exact stable_sort_desc_perm|].
  split; [vm_compute; reflexivity|].
  exact (filter_tokens_retains_iff stable_sort_desc stable_sort_desc_perm tokens sw 4).
Defined.

(** ** The report emitter *)

Lemma rows_ge_filter (freq_df : DataFrame) (threshold : Z) :
  rows_ge freq_df threshold = filter (fun r => threshold <= total r) freq_df.
Proof.
  unfold rows_ge. induction freq_df as [|r df IH]; [done|].
  simpl. rewrite filter_cons, IH.
  destruct (decide (threshold <= total r)).
  - by rewrite bool_decide_eq_true_2.
  - by rewrite bool_decide_eq_false_2.
Qed.

Lemma path_div_inj (p : Path) (a b : pystr) : path_div p a = path_div p b -> a = b.
Proof.
  unfold path_div. intros [= H]. apply app_inv_head in H. by injection H.
Qed.

Lemma lit_cons (c : ascii) (s : string) : lit (String c s) = N_of_ascii c :: lit s.
Proof. reflexivity. Qed.

(** Two file names that differ in their first character. *)
Ltac names_differ :=
  let H := fresh in
  intros H; apply path_div_inj in H; rewrite !lit_cons in H;
  simpl app in H; injection H; intros; discriminate.

Section EmitterFacts.
Variable sep : pystr.
Variable script_file : Path.
Variable to_string : DataFrame -> pystr.
Variable now : pystr.

Lemma plot_df_take (df_ge : DataFrame) :
  (if bool_decide (50 < len df_ge) then head 50 df_ge else df_ge) = take 50 df_ge.
Proof.
  case_bool_decide as H; [done|]. symmetry. apply take_ge. unfold len in H. lia.
Qed.

(** One run of [save_outputs]: it returns, and adds seven effects. *)
Lemma save_outputs_run freq_df threshold w :
  let df_ge := rows_ge freq_df threshold in
  exists summary chart,
    save_outputs sep script_file to_string now freq_df threshold w
    = (Returned tt,
       mkWorld
         (trace w ++
            [ Mkdir (OUTPUT_DIR script_file);
              WriteCsv (csv_all_path script_file) freq_df;
              WriteCsv (csv_ge_path script_file threshold) df_ge;
              WriteExcel (xlsx_path script_file)
                [(lit "all_tokens", freq_df);
                 (lit "tokens_ge_" ++ str_of_int threshold, df_ge)];
              WriteText (txt_path script_file) summary;
              chart;
              WriteText (log_path script_file)
                (log_text sep script_file to_string now freq_df threshold
                   (log_manifest script_file threshold)) ])
         (nltk_corpus w))
    /\ ((df_ge <> [] /\ exists fig,
           chart = SaveFig (png_path script_file threshold) fig
           /\ is_bar_chart_of (take 50 df_ge) fig)
        \/ (df_ge = [] /\ exists note,
              chart = WriteText (chart_note_path script_file) note)).
Proof.
  intros df_ge. unfold save_outputs, write_run_log, bind, perform, ret.
  cbn [trace nltk_corpus]. rewrite plot_df_take. fold df_ge.
  case_bool_decide as Hlen; cbn [trace nltk_corpus];
    do 2 eexists; (split; [f_equal; f_equal; rewrite <- !app_assoc; reflexivity|]).
  - left. split.
    + intros He. rewrite He in Hlen. unfold len in Hlen. simpl in Hlen. lia.
    + eexists. split; [reflexivity|]. by split.
  - right. split; [|by eexists].
    destruct df_ge; [done|]. unfold len in Hlen. simpl in Hlen. lia.
Qed.

(** The note and the chart have file names of their own. *)
Lemma chart_note_not_listed threshold :
  chart_note_path script_file ∉ log_manifest script_file threshold.
Proof.
  unfold log_manifest. rewrite !not_elem_of_cons. repeat split;
    try apply not_elem_of_nil; names_differ.
Qed.

Lemma png_path_not_other threshold :
  png_path script_file threshold
  ∉ [csv_all_path script_file; csv_ge_path script_file threshold;
     xlsx_path script_file; txt_path script_file;
     chart_note_path script_file; log_path script_file].
Proof.
  rewrite !not_elem_of_cons. repeat split;
    try apply not_elem_of_nil; try names_differ.
Qed.
End EmitterFacts.

Section EmitterTheorems.
Variable sep : pystr.
Variable script_file : Path.
Variable to_string : DataFrame -> pystr.
Variable now : pystr.

Lemma chart_note_not_other threshold :
  chart_note_path script_file
  ∉ [csv_all_path script_file; csv_ge_path script_file threshold;
     xlsx_path script_file; txt_path script_file;
     png_path script_file threshold; log_path script_file].
Proof. apply chart_note_not_listed. Qed.

(** C1.  The thresholded table that the report emitter writes, as a CSV
    file and as the second sheet of the workbook, consists of the rows
    of the full table whose count is at least the threshold, each as
    often as in the full table and in the same order. *)
Theorem thresholded_table_is_ordered_subset freq_df threshold w :
  let df_ge := rows_ge freq_df threshold in
  df_ge = filter (fun r => threshold <= total r) freq_df
  /\ sublist df_ge freq_df
  /\ (forall r, r ∈ df_ge <-> r ∈ freq_df /\ threshold <= total r)
  /\ exists effs,
       save_outputs sep script_file to_string now freq_df threshold w
       = (Returned tt, mkWorld (trace w ++ effs) (nltk_corpus w))
       /\ WriteCsv (csv_all_path script_file) freq_df ∈ effs
       /\ WriteCsv (csv_ge_path script_file threshold) df_ge ∈ effs
       /\ WriteExcel (xlsx_path script_file)
            [(lit "all_tokens", freq_df);
             (lit "tokens_ge_" ++ str_of_int threshold, df_ge)] ∈ effs.
Proof.
  intros df_ge. subst df_ge. split; [apply rows_ge_filter|].
  split; [rewrite rows_ge_filter; apply sublist_filter|].
  split; [intros r; rewrite rows_ge_filter, list_elem_of_filter; naive_solver|].
  destruct (save_outputs_run sep script_file to_string now freq_df threshold w)
    as (summary & chart & Hrun & _).
  eexists. split; [exact Hrun|].
  rewrite !elem_of_cons. naive_solver.
Qed.

(** C7.  [save_outputs] returns normally.  When the thresholded table
    has rows, it saves one chart, whose bars are the first fifty rows
    of that table (all of them when there are at most fifty), and
    writes no note.  When the thresholded table is empty, it saves no
    chart and writes the note. *)
Theorem chart_capped_or_note freq_df threshold w :
  let df_ge := rows_ge freq_df threshold in
  exists effs,
    save_outputs sep script_file to_string now freq_df threshold w
    = (Returned tt, mkWorld (trace w ++ effs) (nltk_corpus w))
    /\ (df_ge <> [] ->
        exists fig,
          saved_charts effs = [(png_path script_file threshold, fig)]
          /\ is_bar_chart_of (take 50 df_ge) fig
          /\ length (bar_x fig) = Nat.min 50 (length df_ge)
          /\ chart_note_path script_file ∉ written_paths effs)
    /\ (df_ge = [] ->
        saved_charts effs = []
        /\ exists note, WriteText (chart_note_path script_file) note ∈ effs).
Proof.
  intros df_ge.
  destruct (save_outputs_run sep script_file to_string now freq_df threshold w)
    as (summary & chart & Hrun & Hchart).
  fold df_ge in Hrun, Hchart.
  eexists. split; [exact Hrun|].
  destruct Hchart as [[Hne (fig & -> & Hfig)] | [He (note & ->)]].
  - split; [|done]. intros _. exists fig. split; [reflexivity|].
    split; [done|]. split.
    + destruct Hfig as [-> _]. by rewrite length_map, length_take.
    + apply chart_note_not_other.
  - split; [done|]. intros _. split; [reflexivity|].
    exists note. rewrite !elem_of_cons. naive_solver.
Qed.

(** C8 fails in the code when no row meets the threshold.  The log then
    lists, under its heading of generated outputs, the chart file,
    which the run did not write, and leaves out the note
    [chart_note.txt], which the run wrote in its place. *)
Theorem run_log_manifest_mismatch freq_df threshold w :
  rows_ge freq_df threshold = [] ->
  exists effs,
    save_outputs sep script_file to_string now freq_df threshold w
    = (Returned tt, mkWorld (trace w ++ effs) (nltk_corpus w))
    /\ (last effs
        = Some (WriteText (log_path script_file)
                  (log_text sep script_file to_string now freq_df threshold
                     (log_manifest script_file threshold))))
    /\ written_paths effs
       = [csv_all_path script_file; csv_ge_path script_file threshold;
          xlsx_path script_file; txt_path script_file;
          chart_note_path script_file; log_path script_file]
    /\ png_path script_file threshold ∈ log_manifest script_file threshold
    /\ png_path script_file threshold ∉ written_paths effs
    /\ chart_note_path script_file ∈ written_paths effs
    /\ chart_note_path script_file ∉ log_manifest script_file threshold.
Proof.
  intros Hempty.
  destruct (save_outputs_run sep script_file to_string now freq_df threshold w)
    as (summary & chart & Hrun & Hchart).
  destruct Hchart as [[Hne _] | [_ (note & ->)]]; [done|].
  eexists. split; [exact Hrun|].
  split; [reflexivity|]. split; [reflexivity|].
  split; [unfold log_manifest; rewrite !elem_of_cons; naive_solver|].
  split; [apply png_path_not_other|].
  split; [cbn; rewrite !elem_of_cons; naive_solver|].
  apply chart_note_not_listed.
Qed.

(** When some row meets the threshold, the outputs listed in the log
    are the files of the run, in the order in which it wrote them. *)
Lemma run_log_manifest_exact freq_df threshold w :
  rows_ge freq_df threshold <> [] ->
  exists effs,
    save_outputs sep script_file to_string now freq_df threshold w
    = (Returned tt, mkWorld (trace w ++ effs) (nltk_corpus w))
    /\ (last effs
        = Some (WriteText (log_path script_file)
                  (log_text sep script_file to_string now freq_df threshold
                     (log_manifest script_file threshold))))
    /\ written_paths effs = log_manifest script_file threshold.
Proof.
  intros Hne.
  destruct (save_outputs_run sep script_file to_string now freq_df threshold w)
    as (summary & chart & Hrun & Hchart).
  destruct Hchart as [[_ (fig & -> & _)] | [He _]]; [|done].
  eexists. split; [exact Hrun|]. split; reflexivity.
Qed.
End EmitterTheorems.

Lemma run_log_manifest_mismatch_witness :
  let w := initial_world None in
  rows_ge [] 250 = []
  /\ exists effs,
       save_outputs posix_sep posix_script_file plain_to_string example_now [] 250 w
       = (Returned tt, mkWorld (trace w ++ effs) (nltk_corpus w))
       /\ (last effs
           = Some (WriteText (log_path posix_script_file)
                     (log_text posix_sep posix_script_file plain_to_string
                        example_now [] 250 (log_manifest posix_script_file 250))))
       /\ written_paths effs
          = [csv_all_path posix_script_file; csv_ge_path posix_script_file 250;
             xlsx_path posix_script_file; txt_path posix_script_file;
             chart_note_path posix_script_file; log_path posix_script_file]
       /\ png_path posix_script_file 250 ∈ log_manifest posix_script_file 250
       /\ png_path posix_script_file 250 ∉ written_paths effs
       /\ chart_note_path posix_script_file ∈ written_paths effs
       /\ chart_note_path posix_script_file ∉ log_manifest posix_script_file 250.
Proof.
  intros w. split; [reflexivity|].
  apply (run_log_manifest_mismatch posix_sep posix_script_file plain_to_string
           example_now [] 250 w).
  reflexivity.
Defined.

(** ** Main *)

Section MainTheorems.
Variable sep : pystr.
Variable script_file : Path.
Variable nfkc : pystr -> pystr.
Variable lower : pystr -> pystr.
Variable sort_values_desc : DataFrame -> DataFrame.
Variable to_string : DataFrame -> pystr.
Variable input_text : Path -> option pystr.
Variable nltk_remote : option (list pystr).
Variable now : pystr.

(** C9.  When there is no file at the input path, [main] raises
    [FileNotFoundError] with a message that contains the input path;
    the one effect of the run is the creation of the output directory,
    and the stopword corpus is not touched. *)
Theorem main_missing_input w :
  input_text (input_path script_file) = None ->
  exists message,
    main sep script_file nfkc lower sort_values_desc to_string input_text
      nltk_remote now w
    = (Raised (FileNotFoundError message),
       mkWorld (trace w ++ [Mkdir (OUTPUT_DIR script_file)]) (nltk_corpus w))
    /\ substring_of (path_str sep (input_path script_file)) message.
Proof.
  intros Hnone. unfold main, bind, perform, exists_, raise.
  cbn [trace nltk_corpus]. fold (input_path script_file). rewrite Hnone.
  rewrite bool_decide_eq_false_2 by (intros [? ?]; discriminate).
  cbn [negb]. eexists. split; [reflexivity|].
  unfold substring_of, fmt_path. eexists _, _. reflexivity.
Qed.

(** With the corpus in place and the stopword list installed, [main]
    runs the pipeline and hands its table to [save_outputs]. *)
Lemma main_with_input w raw_text ws :
  input_text (input_path script_file) = Some raw_text ->
  nltk_corpus w = Some ws ->
  main sep script_file nfkc lower sort_values_desc to_string input_text
    nltk_remote now w
  = save_outputs sep script_file to_string now
      (count_tokens sort_values_desc
         (filter_tokens (tokenize lower (normalize_text nfkc raw_text))
            (list_to_set ws ∪ list_to_set EXTRA_STOPWORDS) 4))
      250
      (mkWorld (trace w ++ [Mkdir (OUTPUT_DIR script_file)]) (nltk_corpus w)).
Proof.
  intros Hsome Hws. unfold main, bind at 1, perform at 1, exists_.
  cbn [trace nltk_corpus]. fold (input_path script_file).
  rewrite bool_decide_eq_true_2 by (rewrite Hsome; eauto).
  cbn [negb]. unfold read_text. fold (input_path script_file). rewrite Hsome.
  unfold bind at 1, ret at 1. unfold build_stopword_set.
  unfold bind at 1, bind at 1. unfold ensure_nltk_stopwords, stopwords_words.
  cbn [trace nltk_corpus]. rewrite Hws. unfold bind at 1. cbn [nltk_corpus].
  reflexivity.
Qed.
End MainTheorems.

Lemma main_missing_input_witness :
  let w := initial_world None in
  no_input (input_path posix_script_file) = None
  /\ exists message,
       main posix_sep posix_script_file nfkc_of_normalized ascii_lower
         stable_sort_desc plain_to_string no_input None example_now w
       = (Raised (FileNotFoundError message),
          mkWorld (trace w ++ [Mkdir (OUTPUT_DIR posix_script_file)]) (nltk_corpus w))
       /\ substring_of (path_str posix_sep (input_path posix_script_file)) message.
Proof.
  intros w. split; [reflexivity|].
  apply (main_missing_input posix_sep posix_script_file nfkc_of_normalized
           ascii_lower stable_sort_desc plain_to_string no_input None
           example_now w).
  reflexivity.
Defined.

Example posix_input_path :
  path_str posix_sep (input_path posix_script_file)
  = lit "/repo/data/customer_support_text_corpus.txt".
Proof. reflexivity. Qed.

(** ** The normalizer *)

Section NormalizerFacts.
Variable nfkc : pystr -> pystr.

Lemma not_elem_of_replace_char old new text :
  old <> new -> old ∉ replace_char old new text.
Proof.
  intros Hne Hin. unfold replace_char in Hin.
  apply list_elem_of_In, in_map_iff in Hin as (c & Hc & _).
  destruct (decide (c = old)); congruence.
Qed.

Lemma elem_of_replace_char_other c old new text :
  c <> new -> c ∈ replace_char old new text -> c ∈ text.
Proof.
  intros Hne Hin. unfold replace_char in Hin.
  apply list_elem_of_In, in_map_iff in Hin as (c' & Hc & Hin).
  apply list_elem_of_In. destruct (decide (c' = old)); congruence.
Qed.

(** [normalize_text] is total, and the three characters it names are
    gone from its result. *)
Lemma normalize_text_replaces text :
  RIGHT_SINGLE_QUOTE ∉ normalize_text nfkc text
  /\ LEFT_DOUBLE_QUOTE ∉ normalize_text nfkc text
  /\ RIGHT_DOUBLE_QUOTE ∉ normalize_text nfkc text.
Proof.
  unfold normalize_text. repeat split.
  - intros H. do 2 (apply elem_of_replace_char_other in H; [|done]).
    by apply not_elem_of_replace_char in H.
  - intros H. apply elem_of_replace_char_other in H; [|done].
    by apply not_elem_of_replace_char in H.
  - by apply not_elem_of_replace_char.
Qed.

(** C6 fails in the code: the left single quotation mark U+2018, which
    NFKC leaves as it is, is not among the characters that
    [normalize_text] replaces, so it remains in the result, next to
    the apostrophe that has replaced its right-hand partner. *)
Theorem normalize_text_keeps_left_single_quote :
  let text := LEFT_SINGLE_QUOTE :: lit "help" ++ [RIGHT_SINGLE_QUOTE] in
  nfkc text = text ->
  normalize_text nfkc text = LEFT_SINGLE_QUOTE :: lit "help" ++ [APOSTROPHE]
  /\ exists c, c ∈ normalize_text nfkc text /\ is_curly_quote c = true.
Proof.
  intros text Hfix. unfold normalize_text. rewrite Hfix.
  split; [reflexivity|]. exists LEFT_SINGLE_QUOTE. split; [|reflexivity].
  vm_compute. left.
Qed.
End NormalizerFacts.

Lemma normalize_text_keeps_left_single_quote_witness :
  let text := LEFT_SINGLE_QUOTE :: lit "help" ++ [RIGHT_SINGLE_QUOTE] in
  nfkc_of_normalized text = text
  /\ normalize_text nfkc_of_normalized text
     = LEFT_SINGLE_QUOTE :: lit "help" ++ [APOSTROPHE]
  /\ exists c, c ∈ normalize_text nfkc_of_normalized text /\ is_curly_quote c = true.
Proof.
  intros text. split; [reflexivity|].
  apply (normalize_text_keeps_left_single_quote nfkc_of_normalized).
  reflexivity.
Defined.

(** ** The tokenizer *)

Section MatcherFacts.
Implicit Types (s a b u tok : pystr).

Lemma span_alnum_spec s :
  s = (span_alnum s).1 ++ (span_alnum s).2
  /\ Forall (fun c => is_alnum c = true) (span_alnum s).1.
Proof.
  induction s as [|c s [IH1 IH2]]; simpl; [by split|].
  destruct (is_alnum c) eqn:Hc; [|by split].
  destruct (span_alnum s) as [run rest]. simpl in *. split.
  - by rewrite IH1 at 1.
  - by constructor.
Qed.

Lemma span_alnum_app a u :
  Forall (fun c => is_alnum c = true) a ->
  span_alnum (a ++ u) = (a ++ (span_alnum u).1, (span_alnum u).2).
Proof.
  induction 1 as [|c a Hc _ IH]; simpl.
  - by destruct (span_alnum u).
  - by rewrite Hc, IH.
Qed.

Lemma span_alnum_stop c u :
  is_alnum c = false -> span_alnum (c :: u) = ([], c :: u).
Proof. intros Hc. simpl. by rewrite Hc. Qed.

(** What [match_at] returns matches the pattern and starts the text. *)
Lemma match_at_sound s tok :
  match_at s = Some tok -> matches_pattern tok /\ exists rest, s = tok ++ rest.
Proof.
  unfold match_at. destruct (span_alnum_spec s) as [Hs Hrun].
  destruct (span_alnum s) as [run rest]. simpl in Hs, Hrun.
  destruct run as [|c run]; [done|].
  assert (Hword : matches_pattern (c :: run)) by (by apply matches_word).
  destruct rest as [|q rest']; [intros [= <-]; eauto|].
  destruct (decide (q = APOSTROPHE)) as [->|_]; [|intros [= <-]; eauto].
  destruct (span_alnum_spec rest') as [Hs' Hrun'].
  destruct (span_alnum rest') as [suffix rest'']. simpl in *.
  destruct suffix as [|c' suffix]; intros [= <-]; [eauto|]. split.
  - apply (matches_contraction (c :: run) (c' :: suffix)); by split.
  - exists rest''. rewrite Hs, Hs' at 1. simpl. by rewrite <- app_assoc.
Qed.

(** Where a match starts, [match_at] finds one that is at least as
    long. *)
Lemma match_at_longest tok u :
  matches_pattern tok ->
  exists tok', match_at (tok ++ u) = Some tok' /\ (length tok <= length tok')%nat.
Proof.
  intros [a [Ha Hall] | a b [Ha Halla] [Hb Hallb]]; unfold match_at.
  - rewrite span_alnum_app by done. destruct (span_alnum u) as [x y]. simpl.
    destruct a as [|c a]; [done|]. simpl.
    destruct y as [|q y']; [eexists; split; [done|]; simpl; rewrite length_app; lia|].
    destruct (decide (q = APOSTROPHE)).
    + destruct (span_alnum y').1; eexists; (split; [done|]);
        simpl; rewrite !length_app; lia.
    + eexists; split; [done|]; simpl; rewrite length_app; lia.
  - rewrite <- app_assoc. simpl. rewrite span_alnum_app by done.
    rewrite span_alnum_stop by done. simpl. rewrite app_nil_r.
    destruct a as [|c a]; [done|].
    destruct (decide (APOSTROPHE = APOSTROPHE)); [|done].
    rewrite span_alnum_app by done. simpl.
    destruct b as [|c' b]; [done|]. simpl.
    eexists. split; [done|]. simpl. rewrite !length_app. simpl.
    rewrite !length_app. lia.
Qed.

Lemma match_at_none s tok :
  match_at s = None -> matches_pattern tok -> ~ tok `prefix_of` s.
Proof.
  intros Hnone Htok [u ->].
  destruct (match_at_longest tok u Htok) as (tok' & Hsome & _). congruence.
Qed.

Lemma matches_pattern_nonempty tok : matches_pattern tok -> tok <> [].
Proof.
  intros [a [Ha _] | a b [Ha _] _]; [done|]. by destruct a.
Qed.

Lemma findall_from_consumed tok rest :
  findall_from (length tok) (tok ++ rest) = findall_from 0 rest.
Proof. induction tok as [|c tok IH]; [done|]. simpl. exact IH. Qed.

(** One step of [findall] where a match starts, and where none does. *)
Lemma findall_match tok rest :
  match_at (tok ++ rest) = Some tok ->
  findall (tok ++ rest) = tok :: findall rest.
Proof.
  intros Hm. pose proof (match_at_sound _ _ Hm) as [Hne%matches_pattern_nonempty _].
  destruct tok as [|c tok]; [done|]. unfold findall.
  change (findall_from 0 ((c :: tok) ++ rest))
    with (match match_at ((c :: tok) ++ rest) with
          | Some t => t :: findall_from (pred (length t)) (tok ++ rest)
          | None => findall_from 0 (tok ++ rest)
          end).
  rewrite Hm. simpl pred. by rewrite findall_from_consumed.
Qed.

Lemma findall_skip c s :
  match_at (c :: s) = None -> findall (c :: s) = findall s.
Proof. intros Hm. unfold findall. simpl findall_from. by rewrite Hm. Qed.

(** [findall] performs a scan, *)
Lemma findall_scans s : scans s (findall s).
Proof.
  remember (length s) as n eqn:Hn. revert s Hn.
  induction n as [n IH] using lt_wf_ind. intros s ->.
  destruct s as [|c s]; [constructor|].
  destruct (match_at (c :: s)) as [tok|] eqn:Hm.
  - destruct (match_at_sound _ _ Hm) as [Htok [rest Hs]].
    rewrite Hs in Hm |- *. rewrite (findall_match _ _ Hm).
    eapply scans_match; [done | done | |].
    + intros tok' Htok' [u Hu].
      destruct (match_at_longest tok' u Htok') as (t & Ht & Hlen).
      rewrite <- Hu, Hm in Ht. by injection Ht as <-.
    + eapply IH; [|done]. rewrite Hs, length_app.
      apply matches_pattern_nonempty in Htok. destruct tok; [done|]. simpl. lia.
  - rewrite (findall_skip _ _ Hm). apply scans_skip.
    + intros tok Htok. by apply match_at_none.
    + eapply IH; [|done]. simpl. lia.
Qed.

Lemma scans_inv s toks :
  scans s toks ->
  (s = [] /\ toks = [])
  \/ (exists c s', s = c :: s'
        /\ (forall tok, matches_pattern tok -> ~ tok `prefix_of` s)
        /\ scans s' toks)
  \/ (exists tok rest toks', s = tok ++ rest /\ toks = tok :: toks'
        /\ matches_pattern tok
        /\ (forall tok', matches_pattern tok' -> tok' `prefix_of` s ->
                         (length tok' <= length tok)%nat)
        /\ scans rest toks').
Proof.
  destruct 1 as [|c s toks Hno Hs|s tok rest toks Hs Htok Hlong Hrest].
  - by left.
  - right; left. by exists c, s.
  - right; right. by exists tok, rest, toks.
Qed.

(** and a text has one scan only. *)
Lemma scans_deterministic s toks1 toks2 :
  scans s toks1 -> scans s toks2 -> toks1 = toks2.
Proof.
  intros H1. revert toks2.
  induction H1 as [|c s toks Hno _ IH|s tok rest toks Hs Htok Hlong _ IH];
    intros toks2 H2; apply scans_inv in H2
      as [[Hnil ->] | [(c' & s' & Hcons & Hno' & H2)
                      | (tok' & rest' & toks' & Hs' & -> & Htok' & Hlong' & H2)]].
  - done.
  - done.
  - apply matches_pattern_nonempty in Htok'. by destruct tok'.
  - done.
  - injection Hcons as <- <-. by apply IH.
  - exfalso. apply (Hno tok' Htok'). rewrite Hs'. by eexists.
  - subst s. apply matches_pattern_nonempty in Htok. by destruct tok.
  - exfalso. apply (Hno' tok Htok). rewrite Hs. by eexists.
  - assert (Hlen : length tok = length tok').
    { apply Nat.le_antisymm.
      - apply Hlong'; [done|]. rewrite Hs. by eexists.
      - apply Hlong; [done|]. rewrite Hs'. by eexists. }
    rewrite Hs in Hs'. apply app_inj_1 in Hs' as [-> ->]; [|done].
    f_equal. by apply IH.
Qed.
End MatcherFacts.

Section TokenizerFacts.
Variable lower : pystr -> pystr.
Hypothesis lower_empty : lower [] = [].

(** C5, as amended.  The tokenizer lowercases the text and scans the
    result from the left: where no match of the pattern starts it moves
    one character on, where one starts it takes the longest and resumes
    behind it.  Its result is the list of the matches taken, in that
    order and with repetitions, and no other list is the result of
    such a scan.  For the empty string the result is empty. *)
Theorem tokenize_leftmost_longest text :
  scans (lower text) (tokenize lower text)
  /\ (forall toks, scans (lower text) toks -> toks = tokenize lower text)
  /\ tokenize lower [] = [].
Proof.
  unfold tokenize. split; [apply findall_scans|]. split.
  - intros toks H. eapply scans_deterministic; [exact H | apply findall_scans].
  - by rewrite lower_empty.
Qed.
End TokenizerFacts.

Lemma tokenize_leftmost_longest_witness :
  let text := lit "I can't reset my password, please help." in
  ascii_lower [] = []
  /\ tokenize ascii_lower text
     = map lit ["i"; "can't"; "reset"; "my"; "password"; "please"; "help"]
  /\ scans (ascii_lower text) (tokenize ascii_lower text)
  /\ (forall toks, scans (ascii_lower text) toks -> toks = tokenize ascii_lower text)
  /\ tokenize ascii_lower [] = [].
Proof.
  intros text. split; [reflexivity|]. split; [reflexivity|].
  apply (tokenize_leftmost_longest ascii_lower). reflexivity.
Defined.

(** C5, as stated, fails on a word with two apostrophes.  In the text
    a'b'c the tokenizer returns a'b and then c; but c is not a maximal
    run, because the match b'c contains it, and so the tokens are not
    the maximal runs of the text. *)
Lemma tokenize_not_maximal_runs :
  tokenize ascii_lower (lit "a'b'c") = [lit "a'b"; lit "c"]
  /\ ~ lists_maximal_runs (ascii_lower (lit "a'b'c"))
         (tokenize ascii_lower (lit "a'b'c")).
Proof.
  split; [reflexivity|].
  change (tokenize ascii_lower (lit "a'b'c")) with [lit "a'b"; lit "c"].
  intros (starts & Hlen & _ & H).
  destruct starts as [|s0 [|s1 [|? ?]]]; try discriminate Hlen.
  destruct (H s1 (lit "c")) as [Hmax _].
  destruct Hmax as (_ & Hocc & Hmax); [right; left|].
  assert (Hbc : matches_pattern (lit "b'c")).
  { apply (matches_contraction (lit "b") (lit "c")); split; try done;
      by repeat constructor. }
  destruct s1 as [|[|[|[|[|s1]]]]]; try (vm_compute in Hocc; discriminate Hocc).
  - destruct (Hmax 2%nat (lit "b'c") Hbc) as [? _]; [reflexivity | lia | simpl; lia | lia].
  - destruct s1; vm_compute in Hocc; discriminate Hocc.
Qed.

(** The tokenizer on non-matching input, and on the apostrophe cases. *)
Example tokenize_no_token :
  tokenize ascii_lower (lit " ... '' -- ") = [].
Proof. reflexivity. Qed.

Example tokenize_apostrophes :
  tokenize ascii_lower (lit "it''s 'x' a' b")
  = map lit ["it"; "s"; "x"; "a"; "b"].
Proof. reflexivity. Qed.

(** The pipeline of [main] on the example of the specification. *)
Example main_on_example :
  let raw := lit "I can't reset my password, please help. Password reset password." in
  written_paths
    (trace
       (main posix_sep posix_script_file nfkc_of_normalized ascii_lower
          stable_sort_desc plain_to_string (input_with raw) None example_now
          (initial_world (Some []))).2)
  = [csv_all_path posix_script_file; csv_ge_path posix_script_file 250;
     xlsx_path posix_script_file; txt_path posix_script_file;
     chart_note_path posix_script_file; log_path posix_script_file]
  /\ count_tokens stable_sort_desc
       (filter_tokens (tokenize ascii_lower (normalize_text nfkc_of_normalized raw))
          (list_to_set EXTRA_STOPWORDS) 4)
     = [(lit "password", 3); (lit "reset", 2); (lit "can't", 1); (lit "help", 1)].
Proof. split; vm_compute; reflexivity. Qed.

(** ** More on the tokenizer *)

Section ScanFacts.
Implicit Types (s tok : pystr) (toks : list pystr).

Lemma scans_matches s toks : scans s toks -> Forall matches_pattern toks.
Proof. induction 1; [constructor | done | by constructor]. Qed.

Lemma matches_pattern_chars tok :
  matches_pattern tok ->
  Forall (fun c => is_alnum c = true \/ c = APOSTROPHE) tok.
Proof.
  intros [a [_ Ha] | a b [_ Ha] [_ Hb]].
  - eapply Forall_impl; [exact Ha | by left].
  - apply Forall_app. split; [eapply Forall_impl; [exact Ha | by left]|].
    constructor; [by right|]. eapply Forall_impl; [exact Hb | by left].
Qed.

Lemma matches_pattern_head tok :
  matches_pattern tok -> exists c tok', tok = c :: tok' /\ is_alnum c = true.
Proof.
  intros [a [Hne Ha] | a b [Hne Ha] _]; destruct a as [|c a]; try done;
    apply Forall_cons in Ha as [Hc _]; by eexists _, _.
Qed.

Lemma scans_skip_not_alnum c s :
  (forall tok, matches_pattern tok -> ~ tok `prefix_of` c :: s) ->
  is_alnum c = false.
Proof.
  intros Hno. destruct (is_alnum c) eqn:Hc; [|done].
  exfalso. apply (Hno [c]).
  - apply matches_word. split; [done|]. by repeat constructor.
  - by exists s.
Qed.

Lemma scans_alnum s toks :
  scans s toks ->
  filter (fun c => is_alnum c = true) (concat toks)
  = filter (fun c => is_alnum c = true) s.
Proof.
  induction 1 as [|c s toks Hno _ IH|s tok rest toks -> _ _ _ IH]; [done| |].
  - rewrite filter_cons_False; [done|].
    rewrite (scans_skip_not_alnum _ _ Hno). done.
  - simpl. by rewrite !filter_app, IH.
Qed.

Lemma scans_sublist s toks : scans s toks -> sublist (concat toks) s.
Proof.
  induction 1 as [|c s toks _ _ IH|s tok rest toks -> _ _ _ IH]; [done| |].
  - by apply sublist_cons.
  - simpl. by apply sublist_app.
Qed.
End ScanFacts.

Lemma tokenize_scans_matches (lower : pystr -> pystr) (text : pystr) :
  Forall matches_pattern (tokenize lower text).
Proof. unfold tokenize. eapply scans_matches, findall_scans. Qed.

Section TokenizerMore.
Variable lower : pystr -> pystr.

(** X3.  Every token that [tokenize] returns matches the pattern of its
    regular expression: it is not empty, starts with a character of
    [[a-z0-9]] and consists of such characters and apostrophes only. *)
Theorem tokenize_tokens_match text :
  Forall (fun tok =>
            matches_pattern tok
            /\ (exists c tok', tok = c :: tok' /\ is_alnum c = true)
            /\ Forall (fun c => is_alnum c = true \/ c = APOSTROPHE) tok)
    (tokenize lower text).
Proof.
  unfold tokenize.
  pose proof (scans_matches _ _ (findall_scans (lower text))) as Hall.
  eapply Forall_impl; [exact Hall|]. intros tok Htok.
  split; [done|]. split; [by apply matches_pattern_head|].
  by apply matches_pattern_chars.
Qed.

(** X4.  Tokenizing drops separators and nothing else: the tokens, one
    after the other, are a subsequence of the lowercased text, and they
    hold every character of [[a-z0-9]] of that text, in order. *)
Theorem tokenize_keeps_alnum text :
  sublist (concat (tokenize lower text)) (lower text)
  /\ filter (fun c => is_alnum c = true) (concat (tokenize lower text))
     = filter (fun c => is_alnum c = true) (lower text).
Proof.
  unfold tokenize. split.
  - apply scans_sublist, findall_scans.
  - apply scans_alnum, findall_scans.
Qed.

(** X5.  [tokenize] returns no token exactly when the lowercased text
    has no character of [[a-z0-9]]. *)
Theorem tokenize_empty_iff text :
  tokenize lower text = []
  <-> Forall (fun c => is_alnum c = false) (lower text).
Proof.
  unfold tokenize.
  pose proof (findall_scans (lower text)) as Hscan.
  pose proof (scans_alnum _ _ Hscan) as Halnum.
  split.
  - intros Hnil. rewrite Hnil in Halnum. simpl in Halnum.
    apply Forall_forall. intros c Hc.
    destruct (is_alnum c) eqn:Hac; [|done].
    assert (c ∈ filter (fun c => is_alnum c = true) (lower text))
      by (by apply list_elem_of_filter).
    rewrite <- Halnum in H. by apply elem_of_nil in H.
  - intros Hnone.
    destruct (findall (lower text)) as [|tok toks] eqn:Hf; [done|].
    apply scans_matches, Forall_cons in Hscan as [Htok _].
    destruct (matches_pattern_head _ Htok) as (c & tok' & -> & Hc).
    assert (Hin : c ∈ filter (fun c => is_alnum c = true) (lower text)).
    { rewrite <- Halnum. simpl. rewrite filter_cons_True by done. left. }
    apply list_elem_of_filter in Hin as [_ Hin].
    rewrite Forall_forall in Hnone. specialize (Hnone c Hin). congruence.
Qed.
End TokenizerMore.

Lemma replace_char_absent (old new : N) (text : pystr) :
  old ∉ text -> replace_char old new text = text.
Proof.
  unfold replace_char. induction text as [|c text IH]; [done|].
  intros [Hne Hin]%not_elem_of_cons. simpl.
  destruct (decide (c = old)); [congruence|]. by rewrite IH.
Qed.

Lemma replace_char_app (old new : N) (s t : pystr) :
  replace_char old new (s ++ t) = replace_char old new s ++ replace_char old new t.
Proof. unfold replace_char. apply map_app. Qed.

Lemma alnum_not_elem (c : N) (a : pystr) :
  is_alnum c = false -> Forall (fun c => is_alnum c = true) a -> c ∉ a.
Proof.
  intros Hc Ha Hin. rewrite Forall_forall in Ha. specialize (Ha c Hin). congruence.
Qed.

Section FindallRuns.
Implicit Types (a b : pystr).

Lemma match_at_contraction a b :
  alnum_run a -> alnum_run b ->
  match_at (a ++ APOSTROPHE :: b) = Some (a ++ APOSTROPHE :: b).
Proof.
  intros Ha Hb.
  destruct (match_at_longest (a ++ APOSTROPHE :: b) []
              (matches_contraction a b Ha Hb)) as (tok & Hm & Hlen).
  rewrite app_nil_r in Hm. rewrite Hm. f_equal.
  destruct (match_at_sound _ _ Hm) as [_ [rest Hrest]].
  assert (rest = []) as ->.
  { apply (f_equal length) in Hrest. rewrite (length_app tok) in Hrest.
    destruct rest; [done|]. simpl in Hrest. lia. }
  by rewrite app_nil_r in Hrest.
Qed.

Lemma match_at_word_stop a c rest :
  alnum_run a -> is_alnum c = false -> c <> APOSTROPHE ->
  match_at (a ++ c :: rest) = Some a.
Proof.
  intros [Hne Ha] Hc Hq. unfold match_at.
  rewrite span_alnum_app, span_alnum_stop by done. simpl. rewrite app_nil_r.
  destruct a; [done|]. by destruct (decide (c = APOSTROPHE)).
Qed.

Lemma match_at_word_end a : alnum_run a -> match_at a = Some a.
Proof.
  intros [Hne Ha]. unfold match_at.
  rewrite <- (app_nil_r a) at 1. rewrite span_alnum_app by done.
  simpl. rewrite app_nil_r. by destruct a.
Qed.

Lemma findall_nil : findall [] = [].
Proof. reflexivity. Qed.

(** X6.  Two runs of [[a-z0-9]] with one other character between them
    come out as one token when that character is the apostrophe, and as
    two tokens, without the character, otherwise. *)
Theorem findall_two_runs a c b :
  alnum_run a -> alnum_run b -> is_alnum c = false ->
  findall (a ++ c :: b)
  = if decide (c = APOSTROPHE) then [a ++ c :: b] else [a; b].
Proof.
  intros Ha Hb Hc. destruct (decide (c = APOSTROPHE)) as [->|Hq].
  - rewrite <- (app_nil_r (a ++ APOSTROPHE :: b)) at 1.
    rewrite findall_match; [by rewrite findall_nil|].
    rewrite app_nil_r. by apply match_at_contraction.
  - rewrite findall_match by (by apply match_at_word_stop).
    f_equal. rewrite findall_skip.
    + rewrite <- (app_nil_r b) at 1.
      rewrite findall_match; [by rewrite findall_nil|].
      rewrite app_nil_r. by apply match_at_word_end.
    + unfold match_at. by rewrite span_alnum_stop.
Qed.
End FindallRuns.

Lemma findall_two_runs_witness :
  alnum_run (lit "can") /\ alnum_run (lit "t") /\ is_alnum 45%N = false
  /\ findall (lit "can" ++ APOSTROPHE :: lit "t") = [lit "can't"]
  /\ findall (lit "can" ++ 45%N :: lit "t") = [lit "can"; lit "t"].
Proof.
  assert (H1 : alnum_run (lit "can")) by (split; [done | by repeat constructor]).
  assert (H2 : alnum_run (lit "t")) by (split; [done | by repeat constructor]).
  split; [exact H1|]. split; [exact H2|]. split; [reflexivity|]. split.
  - exact (findall_two_runs (lit "can") APOSTROPHE (lit "t") H1 H2 eq_refl).
  - exact (findall_two_runs (lit "can") 45%N (lit "t") H1 H2 eq_refl).
Defined.

Section NormalizerMore.
Variable nfkc : pystr -> pystr.
Variable lower : pystr -> pystr.

(** X1.  [normalize_text] changes no length after NFKC, leaves none of
    the three characters it replaces, and brings in no character other
    than the ASCII apostrophe and quotation mark. *)
Theorem normalize_text_replaced_gone text :
  let out := normalize_text nfkc text in
  length out = length (nfkc text)
  /\ RIGHT_SINGLE_QUOTE ∉ out /\ LEFT_DOUBLE_QUOTE ∉ out /\ RIGHT_DOUBLE_QUOTE ∉ out
  /\ (forall c, c ∈ out -> c ∈ nfkc text \/ c = APOSTROPHE \/ c = QUOTATION_MARK).
Proof.
  simpl. split; [unfold normalize_text, replace_char; by rewrite !length_map|].
  destruct (normalize_text_replaces nfkc text) as (H1 & H2 & H3).
  do 3 (split; [done|]). intros c Hc. unfold normalize_text in Hc.
  destruct (decide (c = QUOTATION_MARK)) as [|Hq]; [auto|].
  destruct (decide (c = APOSTROPHE)) as [|Ha]; [auto|].
  left. do 3 (apply elem_of_replace_char_other in Hc; [|done]). done.
Qed.

(** X2.  Normalizing twice is normalizing once, wherever NFKC leaves the
    first result as it is. *)
Theorem normalize_text_idempotent text :
  nfkc (normalize_text nfkc text) = normalize_text nfkc text ->
  normalize_text nfkc (normalize_text nfkc text) = normalize_text nfkc text.
Proof.
  intros Hfix. destruct (normalize_text_replaces nfkc text) as (H1 & H2 & H3).
  unfold normalize_text at 1. rewrite Hfix.
  rewrite (replace_char_absent RIGHT_SINGLE_QUOTE) by done.
  rewrite (replace_char_absent LEFT_DOUBLE_QUOTE) by done.
  by rewrite replace_char_absent.
Qed.

(** X7.  A contraction written with the typographic apostrophe U+2019
    becomes one token with the ASCII apostrophe, once the text has gone
    through [normalize_text] and [tokenize]. *)
Theorem tokenize_normalized_contraction a b :
  alnum_run a -> alnum_run b ->
  nfkc (a ++ RIGHT_SINGLE_QUOTE :: b) = a ++ RIGHT_SINGLE_QUOTE :: b ->
  lower (a ++ APOSTROPHE :: b) = a ++ APOSTROPHE :: b ->
  tokenize lower (normalize_text nfkc (a ++ RIGHT_SINGLE_QUOTE :: b))
  = [a ++ APOSTROPHE :: b].
Proof.
  intros Ha Hb Hnfkc Hlower.
  assert (Hnorm : normalize_text nfkc (a ++ RIGHT_SINGLE_QUOTE :: b)
                  = a ++ APOSTROPHE :: b).
  { unfold normalize_text. rewrite Hnfkc.
    destruct Ha as [_ Ha], Hb as [_ Hb].
    rewrite replace_char_app. simpl.
    rewrite !(replace_char_absent RIGHT_SINGLE_QUOTE) by (by apply alnum_not_elem).
    destruct (decide (RIGHT_SINGLE_QUOTE = RIGHT_SINGLE_QUOTE)); [|done].
    assert (Hclean : forall q, is_alnum q = false -> q <> APOSTROPHE ->
                               q ∉ a ++ APOSTROPHE :: b).
    { intros q Hq Hne. rewrite not_elem_of_app, not_elem_of_cons.
      split; [by apply alnum_not_elem|]. split; [done | by apply alnum_not_elem]. }
    rewrite (replace_char_absent LEFT_DOUBLE_QUOTE) by (by apply Hclean).
    by rewrite replace_char_absent by (by apply Hclean). }
  unfold tokenize. rewrite Hnorm, Hlower.
  rewrite <- (app_nil_r (a ++ APOSTROPHE :: b)) at 1.
  rewrite findall_match; [by rewrite findall_nil|].
  rewrite app_nil_r. by apply match_at_contraction.
Qed.
End NormalizerMore.

Lemma normalize_text_idempotent_witness :
  let text := LEFT_DOUBLE_QUOTE :: lit "can" ++ RIGHT_SINGLE_QUOTE :: lit "t"
                ++ [RIGHT_DOUBLE_QUOTE] in
  nfkc_of_normalized (normalize_text nfkc_of_normalized text)
  = normalize_text nfkc_of_normalized text
  /\ normalize_text nfkc_of_normalized text
     = QUOTATION_MARK :: lit "can't" ++ [QUOTATION_MARK]
  /\ normalize_text nfkc_of_normalized (normalize_text nfkc_of_normalized text)
     = normalize_text nfkc_of_normalized text.
Proof.
  intros text. split; [reflexivity|]. split; [reflexivity|].
  apply (normalize_text_idempotent nfkc_of_normalized). reflexivity.
Defined.

Lemma tokenize_normalized_contraction_witness :
  alnum_run (lit "can") /\ alnum_run (lit "t")
  /\ nfkc_of_normalized (lit "can" ++ RIGHT_SINGLE_QUOTE :: lit "t")
     = lit "can" ++ RIGHT_SINGLE_QUOTE :: lit "t"
  /\ ascii_lower (lit "can" ++ APOSTROPHE :: lit "t")
     = lit "can" ++ APOSTROPHE :: lit "t"
  /\ tokenize ascii_lower
       (normalize_text nfkc_of_normalized (lit "can" ++ RIGHT_SINGLE_QUOTE :: lit "t"))
     = [lit "can't"].
Proof.
  assert (H1 : alnum_run (lit "can")) by (split; [done | by repeat constructor]).
  assert (H2 : alnum_run (lit "t")) by (split; [done | by repeat constructor]).
  split; [exact H1|]. split; [exact H2|]. split; [reflexivity|]. split; [reflexivity|].
  exact (tokenize_normalized_contraction nfkc_of_normalized ascii_lower
           (lit "can") (lit "t") H1 H2 eq_refl eq_refl).
Defined.

(** ** More on the stopword filter *)

(** X8.  Filtering is idempotent and works piece by piece on a
    concatenation; a larger stopword set or a larger minimum length
    keeps a subsequence of what the smaller ones keep; and with no
    stopwords and a minimum length of zero or less, nothing is removed. *)
Theorem filter_tokens_algebra (tokens1 tokens2 : list pystr)
    (sw sw' : gset pystr) (min_len min_len' : Z) :
  filter_tokens (filter_tokens tokens1 sw min_len) sw min_len
  = filter_tokens tokens1 sw min_len
  /\ filter_tokens (tokens1 ++ tokens2) sw min_len
     = filter_tokens tokens1 sw min_len ++ filter_tokens tokens2 sw min_len
  /\ (sw ⊆ sw' -> min_len <= min_len' ->
      sublist (filter_tokens tokens1 sw' min_len') (filter_tokens tokens1 sw min_len))
  /\ (min_len <= 0 -> filter_tokens tokens1 ∅ min_len = tokens1).
Proof.
  rewrite !filter_tokens_filter. split; [|split; [|split]].
  - rewrite list_filter_filter. apply list_filter_iff. naive_solver.
  - apply filter_app.
  - intros Hsub Hle.
    rewrite <- (list_filter_filter_l _ (fun t => min_len <= len t /\ t ∉ sw)).
    + apply sublist_filter.
    + intros t [? ?]. split; [lia | set_solver].
  - intros Hle.
    induction tokens1 as [|t tokens1 IH]; [done|].
    rewrite filter_cons_True; [by rewrite IH|].
    split; [unfold len; lia | set_solver].
Qed.

(** ** The stopword set *)

Lemma build_stopword_set_run (nltk_remote : option (list pystr)) (w : World) :
  build_stopword_set nltk_remote w
  = (match corpus_at_hand nltk_remote w with
     | Some ws => Returned (list_to_set ws ∪ list_to_set EXTRA_STOPWORDS)
     | None => Raised LookupError
     end,
     mkWorld (trace w ++ corpus_download w) (corpus_at_hand nltk_remote w)).
Proof.
  destruct w as [t [ws|]]; unfold corpus_at_hand, corpus_download; simpl.
  - by rewrite app_nil_r.
  - by destruct nltk_remote.
Qed.

(** X9.  [build_stopword_set] downloads the NLTK corpus when, and only
    when, it is not installed.  It raises [LookupError] exactly when the
    corpus is neither installed nor fetched, and raises nothing else.
    Otherwise it leaves the corpus installed and returns a set that
    holds every word of the corpus and every extra word. *)
Theorem build_stopword_set_outcome (nltk_remote : option (list pystr)) (w : World) :
  let '(r, w') := build_stopword_set nltk_remote w in
  trace w' = trace w ++ corpus_download w
  /\ nltk_corpus w' = corpus_at_hand nltk_remote w
  /\ (r = Raised LookupError <-> corpus_at_hand nltk_remote w = None)
  /\ match r with
     | Returned sw =>
         exists ws, nltk_corpus w' = Some ws
                    /\ Forall (fun t => t ∈ sw) ws
                    /\ Forall (fun t => t ∈ sw) EXTRA_STOPWORDS
                    /\ forall t, t ∈ sw -> t ∈ ws \/ t ∈ EXTRA_STOPWORDS
     | Raised e => e = LookupError
     end.
Proof.
  rewrite build_stopword_set_run.
  split; [done|]. split; [done|].
  destruct (corpus_at_hand nltk_remote w) as [ws|]; [|done].
  split; [done|]. exists ws. split; [done|].
  split; [|split].
  - apply Forall_forall. intros t Ht. set_solver.
  - unfold EXTRA_STOPWORDS. apply Forall_forall. intros t Ht. set_solver.
  - intros t Ht. set_solver.
Qed.

(** ** More on main and the report emitter *)

Lemma parent_path_div (p : Path) (name : pystr) : parent (path_div p name) = p.
Proof.
  destruct p as [a ps]. unfold parent, path_div. simpl.
  by rewrite removelast_last.
Qed.

(** Two file names that differ within their first [n] characters. *)
Ltac names_differ_within n :=
  let H := fresh in
  intros H; apply path_div_inj in H; apply (f_equal (take n)) in H;
  lazy in H; discriminate H.

Section MainRuns.
Variable sep : pystr.
Variable script_file : Path.
Variable nfkc : pystr -> pystr.
Variable lower : pystr -> pystr.
Variable sort_values_desc : DataFrame -> DataFrame.
Variable to_string : DataFrame -> pystr.
Variable input_text : Path -> option pystr.
Variable nltk_remote : option (list pystr).
Variable now : pystr.

(** With the corpus file in place, [main] builds the stopword set and,
    when that returns, saves the outputs of its table. *)
Lemma main_run w raw_text :
  input_text (input_path script_file) = Some raw_text ->
  main sep script_file nfkc lower sort_values_desc to_string input_text
    nltk_remote now w
  = let w1 := mkWorld ((trace w ++ [Mkdir (OUTPUT_DIR script_file)])
                         ++ corpus_download w)
                (corpus_at_hand nltk_remote w) in
    match corpus_at_hand nltk_remote w with
    | Some ws =>
        save_outputs sep script_file to_string now
          (main_table nfkc lower sort_values_desc ws raw_text) 250 w1
    | None => (Raised LookupError, w1)
    end.
Proof.
  intros Hsome. unfold main, bind at 1, perform at 1, exists_.
  cbn [trace nltk_corpus]. fold (input_path script_file).
  rewrite bool_decide_eq_true_2 by (rewrite Hsome; eauto).
  cbn [negb]. unfold read_text. fold (input_path script_file). rewrite Hsome.
  unfold bind at 1, ret at 1. unfold bind at 1.
  rewrite build_stopword_set_run. unfold corpus_at_hand, corpus_download.
  cbn [trace nltk_corpus].
  by destruct (nltk_corpus w), nltk_remote.
Qed.

(** X10.  With the corpus file in place but the stopword corpus neither
    installed nor fetched, [main] raises [LookupError] after it has
    created the output directory and tried the download; it writes no
    file. *)
Theorem main_stopwords_unavailable w raw_text :
  input_text (input_path script_file) = Some raw_text ->
  corpus_at_hand nltk_remote w = None ->
  exists w',
    main sep script_file nfkc lower sort_values_desc to_string input_text
      nltk_remote now w
    = (Raised LookupError, w')
    /\ trace w' = trace w ++ [Mkdir (OUTPUT_DIR script_file);
                               NltkDownload (lit "stopwords")]
    /\ written_paths (trace w') = written_paths (trace w)
    /\ nltk_corpus w' = None.
Proof.
  intros Hsome Hnone. rewrite (main_run _ _ Hsome). cbn zeta. rewrite Hnone.
  eexists. split; [reflexivity|]. cbn [trace nltk_corpus].
  assert (corpus_download w = [NltkDownload (lit "stopwords")]) as ->.
  { unfold corpus_at_hand, corpus_download in *. by destruct (nltk_corpus w). }
  rewrite <- app_assoc. split; [done|]. split; [|done].
  unfold written_paths. rewrite omap_app. simpl. by rewrite app_nil_r.
Qed.

(** X11.  With the corpus file in place and the stopword corpus at hand,
    [main] returns normally.  Besides creating the output directory and
    fetching a missing corpus, it writes six files: the two CSV files,
    the workbook, the summary, the chart or, when no row of its table
    reaches 250, the note, and last the run log.  The full CSV file
    holds the table of the pipeline. *)
Theorem main_success_files w raw_text ws :
  input_text (input_path script_file) = Some raw_text ->
  corpus_at_hand nltk_remote w = Some ws ->
  let table := main_table nfkc lower sort_values_desc ws raw_text in
  exists effs,
    main sep script_file nfkc lower sort_values_desc to_string input_text
      nltk_remote now w
    = (Returned tt,
       mkWorld (trace w ++ Mkdir (OUTPUT_DIR script_file)
                  :: corpus_download w ++ effs)
         (Some ws))
    /\ written_paths (corpus_download w) = []
    /\ written_paths effs
       = [csv_all_path script_file; csv_ge_path script_file 250;
          xlsx_path script_file; txt_path script_file;
          (if decide (rows_ge table 250 = []) then chart_note_path script_file
           else png_path script_file 250);
          log_path script_file]
    /\ WriteCsv (csv_all_path script_file) table ∈ effs
    /\ WriteCsv (csv_ge_path script_file 250) (rows_ge table 250) ∈ effs.
Proof.
  intros Hsome Hws table. rewrite (main_run _ _ Hsome). cbn zeta. rewrite Hws.
  fold table.
  match goal with |- context [save_outputs _ _ _ _ _ _ ?w1] =>
    destruct (save_outputs_run sep script_file to_string now table 250 w1)
      as (summary & chart & Hrun & Hchart)
  end.
  rewrite Hrun. cbn [trace nltk_corpus]. eexists. split.
  - rewrite <- !app_assoc. reflexivity.
  - split; [unfold corpus_download; by destruct (nltk_corpus w)|].
    split; [|split; rewrite !elem_of_cons; naive_solver].
    destruct Hchart as [[Hne (fig & -> & _)] | [He (note & ->)]];
      destruct (decide (rows_ge table 250 = [])); done.
Qed.
End MainRuns.

Section PipelineFacts.
Variable nfkc : pystr -> pystr.
Variable lower : pystr -> pystr.
Variable sort_values_desc : DataFrame -> DataFrame.
Hypothesis sort_values_perm : forall df, sort_values_desc df ≡ₚ df.

(** X12.  Every word of the table that [main] saves matches the pattern
    of the tokenizer, has at least four characters and is neither an
    NLTK stopword nor one of the extra words; its count is the number
    of times it survived the filter, at least one; and the counts add up
    to the number of tokens that survived. *)
Theorem main_table_rows ws raw_text :
  let kept := filter_tokens (tokenize lower (normalize_text nfkc raw_text))
                (list_to_set ws ∪ list_to_set EXTRA_STOPWORDS) 4 in
  let table := main_table nfkc lower sort_values_desc ws raw_text in
  Forall (fun r =>
            matches_pattern (word r)
            /\ 4 <= len (word r)
            /\ word r ∉ ws /\ word r ∉ EXTRA_STOPWORDS
            /\ total r = occurrences (word r) kept /\ 1 <= total r)
    table
  /\ sum_totals table = len kept.
Proof.
  intros kept table. split.
  - apply Forall_forall. intros r Hr.
    apply (elem_of_count_tokens _ sort_values_perm) in Hr as [Hin Htot].
    fold kept in Hin, Htot.
    pose proof Hin as Hocc%occurrences_pos.
    unfold kept in Hin. rewrite filter_tokens_filter in Hin.
    apply list_elem_of_filter in Hin as [[Hlen Hsw] Hin].
    pose proof (tokenize_scans_matches lower (normalize_text nfkc raw_text)) as Hall.
    rewrite Forall_forall in Hall.
    split; [by apply Hall|]. split; [done|].
    split; [set_solver|]. split; [set_solver|]. split; [done | lia].
  - unfold table, main_table. fold kept.
    rewrite (sum_totals_perm _ _ (count_tokens_perm _ sort_values_perm kept)).
    apply sum_totals_Counter.
Qed.
End PipelineFacts.

Lemma main_table_rows_witness :
  let raw := lit "I can't reset my password, please help. Password reset password." in
  let ws := map lit ["i"; "my"] in
  let kept := filter_tokens (tokenize ascii_lower (normalize_text nfkc_of_normalized raw))
                (list_to_set ws ∪ list_to_set EXTRA_STOPWORDS) 4 in
  let table := main_table nfkc_of_normalized ascii_lower stable_sort_desc ws raw in
  (forall df, stable_sort_desc df ≡ₚ df)
  /\ table = [(lit "password", 3); (lit "reset", 2); (lit "can't", 1); (lit "help", 1)]
  /\ Forall (fun r =>
               matches_pattern (word r)
               /\ 4 <= len (word r)
               /\ word r ∉ ws /\ word r ∉ EXTRA_STOPWORDS
               /\ total r = occurrences (word r) kept /\ 1 <= total r)
       table
  /\ sum_totals table = len kept.
Proof.
  intros raw ws kept table. split; [exact stable_sort_desc_perm|].
  split; [vm_compute; reflexivity|].
  exact (main_table_rows nfkc_of_normalized ascii_lower stable_sort_desc
           stable_sort_desc_perm ws raw).
Defined.

Lemma main_stopwords_unavailable_witness :
  let raw := lit "please reset my password" in
  let w := initial_world None in
  input_with raw (input_path posix_script_file) = Some raw
  /\ corpus_at_hand None w = None
  /\ exists w',
       main posix_sep posix_script_file nfkc_of_normalized ascii_lower
         stable_sort_desc plain_to_string (input_with raw) None example_now w
       = (Raised LookupError, w')
       /\ trace w' = trace w ++ [Mkdir (OUTPUT_DIR posix_script_file);
                                  NltkDownload (lit "stopwords")]
       /\ written_paths (trace w') = written_paths (trace w)
       /\ nltk_corpus w' = None.
Proof.
  intros raw w. split; [reflexivity|]. split; [reflexivity|].
  exact (main_stopwords_unavailable posix_sep posix_script_file
           nfkc_of_normalized ascii_lower stable_sort_desc plain_to_string
           (input_with raw) None example_now w raw eq_refl eq_refl).
Defined.

Lemma main_success_files_witness :
  let raw := lit "please reset my password" in
  let w := initial_world None in
  let ws := map lit ["my"] in
  let table := main_table nfkc_of_normalized ascii_lower stable_sort_desc ws raw in
  input_with raw (input_path posix_script_file) = Some raw
  /\ corpus_at_hand (Some ws) w = Some ws
  /\ table = [(lit "reset", 1); (lit "password", 1)]
  /\ exists effs,
       main posix_sep posix_script_file nfkc_of_normalized ascii_lower
         stable_sort_desc plain_to_string (input_with raw) (Some ws) example_now w
       = (Returned tt,
          mkWorld (trace w ++ Mkdir (OUTPUT_DIR posix_script_file)
                     :: corpus_download w ++ effs)
            (Some ws))
       /\ written_paths (corpus_download w) = []
       /\ written_paths effs
          = [csv_all_path posix_script_file; csv_ge_path posix_script_file 250;
             xlsx_path posix_script_file; txt_path posix_script_file;
             (if decide (rows_ge table 250 = []) then chart_note_path posix_script_file
              else png_path posix_script_file 250);
             log_path posix_script_file]
       /\ WriteCsv (csv_all_path posix_script_file) table ∈ effs
       /\ WriteCsv (csv_ge_path posix_script_file 250) (rows_ge table 250) ∈ effs.
Proof.
  intros raw w ws table. split; [reflexivity|]. split; [reflexivity|].
  split; [vm_compute; reflexivity|].
  exact (main_success_files posix_sep posix_script_file
           nfkc_of_normalized ascii_lower stable_sort_desc plain_to_string
           (input_with raw) (Some ws) example_now w raw ws eq_refl eq_refl).
Defined.

Section EmitterFiles.
Variable sep : pystr.
Variable script_file : Path.
Variable to_string : DataFrame -> pystr.
Variable now : pystr.

Lemma artifact_paths_distinct threshold (chart : Path) :
  chart = png_path script_file threshold \/ chart = chart_note_path script_file ->
  NoDup [csv_all_path script_file; csv_ge_path script_file threshold;
         xlsx_path script_file; txt_path script_file; chart;
         log_path script_file].
Proof.
  intros [-> | ->]; rewrite !NoDup_cons, !not_elem_of_cons;
    repeat split; try apply not_elem_of_nil; try apply NoDup_nil;
    try exact I; names_differ_within 19%nat.
Qed.

Lemma input_path_not_in_output_dir name :
  input_path script_file <> path_div (OUTPUT_DIR script_file) name.
Proof.
  unfold input_path, DATA_DIR, OUTPUT_DIR, path_div. simpl. intros [= H].
  rewrite <- !app_assoc in H. apply app_inv_head in H. discriminate H.
Qed.

(** X13.  Whatever the table and the threshold, [save_outputs] returns
    normally after creating the output directory and writing six files.
    The six paths are pairwise different, each lies directly in the
    output directory, none is the input file, and the run log comes
    last. *)
Theorem save_outputs_files freq_df threshold w :
  exists effs,
    save_outputs sep script_file to_string now freq_df threshold w
    = (Returned tt,
       mkWorld (trace w ++ Mkdir (OUTPUT_DIR script_file) :: effs) (nltk_corpus w))
    /\ Forall (fun e => is_Some (written_path e)) effs
    /\ length (written_paths effs) = 6%nat
    /\ NoDup (written_paths effs)
    /\ Forall (fun p => parent p = OUTPUT_DIR script_file) (written_paths effs)
    /\ input_path script_file ∉ written_paths effs
    /\ last (written_paths effs) = Some (log_path script_file).
Proof.
  destruct (save_outputs_run sep script_file to_string now freq_df threshold w)
    as (summary & chart & Hrun & Hchart).
  eexists. split; [exact Hrun|].
  assert (Hpaths : exists p,
    (p = png_path script_file threshold \/ p = chart_note_path script_file)
    /\ written_path chart = Some p).
  { destruct Hchart as [[_ (fig & -> & _)] | [_ (note & ->)]]; eauto. }
  destruct Hpaths as (p & Hp & Hchart').
  split.
  { repeat (constructor; [simpl; eauto|]). constructor. }
  unfold written_paths. cbn [omap list_omap written_path]. rewrite Hchart'.
  split; [done|]. split; [by apply artifact_paths_distinct|].
  split; [|split; [|done]].
  - repeat (constructor; [try apply parent_path_div|]);
      [destruct Hp as [-> | ->]; apply parent_path_div | constructor].
  - rewrite !not_elem_of_cons. destruct Hp as [-> | ->];
      repeat split; try apply not_elem_of_nil;
      apply input_path_not_in_output_dir.
Qed.
End EmitterFiles.

(** ** More on the frequency table *)

Lemma filter_all {A} (P : A -> Prop) `{!forall x, Decision (P x)} (l : list A) :
  Forall P l -> filter P l = l.
Proof.
  induction 1 as [|x l Hx _ IH]; [done|]. by rewrite filter_cons_True, IH.
Qed.

Lemma filter_none {A} (P : A -> Prop) `{!forall x, Decision (P x)} (l : list A) :
  Forall (fun x => ~ P x) l -> filter P l = [].
Proof.
  induction 1 as [|x l Hx _ IH]; [done|]. by rewrite filter_cons_False.
Qed.

Lemma rows_ge_sorted_prefix (df : DataFrame) (threshold : Z) :
  StronglySorted total_ge df ->
  rows_ge df threshold = take (length (rows_ge df threshold)) df
  /\ Forall (fun r => total r < threshold)
       (drop (length (rows_ge df threshold)) df).
Proof.
  rewrite rows_ge_filter.
  induction df as [|r df IH]; intros Hs; [by split|].
  apply StronglySorted_inv in Hs as [Hs Hall].
  destruct (IH Hs) as [IH1 IH2]. rewrite filter_cons.
  destruct (decide (threshold <= total r)) as [Hle|Hlt]; simpl.
  - split; [by f_equal|done].
  - assert (Hnone : filter (fun r => threshold <= total r) df = []).
    { apply filter_none. eapply Forall_impl; [exact Hall|].
      unfold total_ge. intros; simpl in *; lia. }
    rewrite Hnone in *. simpl in *. split; [done|].
    constructor; [lia | done].
Qed.

Lemma occurrences_perm (w : pystr) (tokens1 tokens2 : list pystr) :
  tokens1 ≡ₚ tokens2 -> occurrences w tokens1 = occurrences w tokens2.
Proof. intros H. unfold occurrences, len. by rewrite H. Qed.

Lemma occurrences_le_len (w : pystr) (tokens : list pystr) :
  occurrences w tokens <= len tokens.
Proof.
  unfold occurrences, len.
  pose proof (length_filter (fun u => u = w) tokens). lia.
Qed.

Lemma NoDup_Counter (tokens : list pystr) : NoDup (Counter tokens).
Proof.
  apply (NoDup_fmap_1 fst). rewrite Counter_words.
  apply NoDup_first_occurrences.
Qed.

Section TableFacts.
Variable sort_values_desc : DataFrame -> DataFrame.
Hypothesis sort_values_perm : forall df, sort_values_desc df ≡ₚ df.
Hypothesis sort_values_sorted : forall df, Sorted total_ge (sort_values_desc df).

Lemma count_tokens_strongly_sorted tokens :
  StronglySorted total_ge (count_tokens sort_values_desc tokens).
Proof.
  apply Sorted_StronglySorted; [apply total_ge_trans | apply sort_values_sorted].
Qed.

(** X14.  Because the frequency table is sorted, the thresholded table
    is its top: the first rows of the full table, all rows after them
    having a count below the threshold.  So the bars of the chart are
    the first rows of the full table, fifty at most. *)
Theorem thresholded_table_is_top_rows tokens threshold :
  let table := count_tokens sort_values_desc tokens in
  let df_ge := rows_ge table threshold in
  df_ge = take (length df_ge) table
  /\ Forall (fun r => total r < threshold) (drop (length df_ge) table)
  /\ take 50 df_ge = take (Nat.min 50 (length df_ge)) table.
Proof.
  intros table df_ge.
  destruct (rows_ge_sorted_prefix table threshold
              (count_tokens_strongly_sorted tokens)) as [Htake Hdrop].
  fold df_ge in Htake, Hdrop. split; [done|]. split; [done|].
  rewrite Htake at 1. apply take_take.
Qed.

(** X15.  The table is ranked: no row among the first [n] has a smaller
    count than a row after them, for every [n].  Its first row names a
    most frequent token, and the table is empty only for the empty
    token list. *)
Theorem count_tokens_ranked tokens n :
  let table := count_tokens sort_values_desc tokens in
  Forall (fun r => Forall (fun r' => total r' <= total r) (drop n table))
    (take n table)
  /\ match table with
     | [] => tokens = []
     | r :: _ => word r ∈ tokens /\ forall w, occurrences w tokens <= total r
     end.
Proof.
  intros table.
  pose proof (count_tokens_strongly_sorted tokens) as Hs. fold table in Hs.
  split.
  - rewrite <- (take_drop n table) in Hs.
    apply Forall_forall. intros r Hr. apply Forall_forall. intros r' Hr'.
    apply (StronglySorted_app_1_elem_of _ _ _ _ _ Hs Hr Hr').
  - assert (Hin : forall r, r ∈ table <->
              word r ∈ tokens /\ total r = occurrences (word r) tokens)
      by (intros r; by apply elem_of_count_tokens).
    destruct table as [|r rest] eqn:Ht.
    + destruct tokens as [|t tokens']; [done|]. exfalso.
      apply (not_elem_of_nil (t, occurrences t (t :: tokens'))).
      apply Hin. split; [left | done].
    + destruct (proj1 (Hin r)) as [Hr Htot]; [left|]. split; [done|].
      apply StronglySorted_inv in Hs as [_ Hall]. intros w.
      destruct (decide (w ∈ tokens)) as [Hw|Hw].
      * assert (Hrow : (w, occurrences w tokens) ∈ r :: rest)
          by (apply Hin; by split).
        apply elem_of_cons in Hrow as [<- | Hrow]; [done|].
        rewrite Forall_forall in Hall. apply (Hall _ Hrow).
      * apply occurrences_pos in Hr.
        assert (occurrences w tokens = 0); [|lia].
        pose proof (occurrences_nonneg w tokens).
        destruct (decide (1 <= occurrences w tokens)) as [Hpos|]; [|lia].
        by apply occurrences_pos in Hpos.
Qed.
End TableFacts.

Section TableSize.
Variable sort_values_desc : DataFrame -> DataFrame.
Hypothesis sort_values_perm : forall df, sort_values_desc df ≡ₚ df.

(** X16.  The table has as many rows as there are distinct tokens, so
    never more rows than tokens. *)
Theorem count_tokens_length tokens :
  length (count_tokens sort_values_desc tokens)
  = size (list_to_set tokens : gset pystr)
  /\ (length (count_tokens sort_values_desc tokens) <= length tokens)%nat.
Proof.
  rewrite (Permutation_length (count_tokens_perm _ sort_values_perm tokens)).
  rewrite <- (length_fmap fst), Counter_words.
  assert (Hsize : length (first_occurrences tokens)
                  = size (list_to_set tokens : gset pystr)).
  { rewrite <- (size_list_to_set (C:=gset pystr))
      by apply NoDup_first_occurrences.
    f_equal. apply set_eq. intros x.
    by rewrite !elem_of_list_to_set, elem_of_first_occurrences. }
  split; [done|]. clear Hsize.
  induction tokens as [|t tokens IH]; [done|]. simpl.
  pose proof (length_filter (fun u => u <> t) (first_occurrences tokens)). lia.
Qed.

(** X17.  The table depends on the order of the tokens only in the
    order of its rows: permuted token lists give permuted tables. *)
Theorem count_tokens_permutation tokens1 tokens2 :
  tokens1 ≡ₚ tokens2 ->
  count_tokens sort_values_desc tokens1 ≡ₚ count_tokens sort_values_desc tokens2.
Proof.
  intros Hperm. rewrite !(count_tokens_perm _ sort_values_perm).
  apply NoDup_Permutation; [apply NoDup_Counter | apply NoDup_Counter |].
  intros r. rewrite !elem_of_Counter, (occurrences_perm _ _ _ Hperm).
  by rewrite Hperm.
Qed.

(** X18.  A threshold of one or less keeps the whole table, and a
    threshold above the number of tokens keeps no row. *)
Theorem rows_ge_count_tokens_bounds tokens threshold :
  let table := count_tokens sort_values_desc tokens in
  (threshold <= 1 -> rows_ge table threshold = table)
  /\ (len tokens < threshold -> rows_ge table threshold = []).
Proof.
  intros table. rewrite rows_ge_filter.
  assert (Hin : forall r, r ∈ table ->
            1 <= total r /\ total r <= len tokens).
  { intros r [Hr Htot]%(elem_of_count_tokens _ sort_values_perm).
    rewrite Htot. split; [by apply occurrences_pos | apply occurrences_le_len]. }
  split; intros Hth.
  - apply filter_all. apply Forall_forall. intros r Hr.
    destruct (Hin r Hr). lia.
  - apply filter_none. apply Forall_forall. intros r Hr.
    destruct (Hin r Hr). lia.
Qed.
End TableSize.

Lemma thresholded_table_is_top_rows_witness :
  let tokens := map lit ["reset"; "password"; "help"; "password"; "reset"; "password"] in
  let table := count_tokens stable_sort_desc tokens in
  let df_ge := rows_ge table 2 in
  (forall df, stable_sort_desc df ≡ₚ df)
  /\ (forall df, Sorted total_ge (stable_sort_desc df))
  /\ df_ge = [(lit "password", 3); (lit "reset", 2)]
  /\ df_ge = take (length df_ge) table
  /\ Forall (fun r => total r < 2) (drop (length df_ge) table)
  /\ take 50 df_ge = take (Nat.min 50 (length df_ge)) table.
Proof.
  intros tokens table df_ge.
  split; [exact stable_sort_desc_perm|].
  split; [exact stable_sort_desc_sorted|].
  split; [reflexivity|].
  exact (thresholded_table_is_top_rows stable_sort_desc
           stable_sort_desc_sorted tokens 2).
Defined.

Lemma count_tokens_ranked_witness :
  let tokens := map lit ["reset"; "password"; "help"; "password"; "reset"; "password"] in
  let table := count_tokens stable_sort_desc tokens in
  (forall df, stable_sort_desc df ≡ₚ df)
  /\ (forall df, Sorted total_ge (stable_sort_desc df))
  /\ Forall (fun r => Forall (fun r' => total r' <= total r) (drop 1 table))
       (take 1 table)
  /\ match table with
     | [] => tokens = []
     | r :: _ => word r ∈ tokens /\ forall w, occurrences w tokens <= total r
     end.
Proof.
  intros tokens table.
  split; [exact stable_sort_desc_perm|].
  split; [exact stable_sort_desc_sorted|].
  exact (count_tokens_ranked stable_sort_desc stable_sort_desc_perm
           stable_sort_desc_sorted tokens 1).
Defined.

Lemma count_tokens_length_witness :
  let tokens := map lit ["reset"; "password"; "help"; "password"; "reset"; "password"] in
  (forall df, stable_sort_desc df ≡ₚ df)
  /\ length (count_tokens stable_sort_desc tokens) = 3%nat
  /\ length (count_tokens stable_sort_desc tokens)
     = size (list_to_set tokens : gset pystr)
  /\ (length (count_tokens stable_sort_desc tokens) <= length tokens)%nat.
Proof.
  intros tokens. split; [exact stable_sort_desc_perm|]. split; [reflexivity|].
  exact (count_tokens_length stable_sort_desc stable_sort_desc_perm tokens).
Defined.

Lemma count_tokens_permutation_witness :
  let tokens1 := map lit ["reset"; "password"; "reset"] in
  let tokens2 := map lit ["password"; "reset"; "reset"] in
  (forall df, stable_sort_desc df ≡ₚ df)
  /\ tokens1 ≡ₚ tokens2
  /\ count_tokens stable_sort_desc tokens1 ≡ₚ count_tokens stable_sort_desc tokens2.
Proof.
  intros tokens1 tokens2.
  assert (Hperm : tokens1 ≡ₚ tokens2) by apply Permutation_swap.
  split; [exact stable_sort_desc_perm|]. split; [exact Hperm|].
  exact (count_tokens_permutation stable_sort_desc stable_sort_desc_perm
           tokens1 tokens2 Hperm).
Defined.

Lemma rows_ge_count_tokens_bounds_witness :
  let tokens := map lit ["reset"; "password"; "help"; "password"; "reset"; "password"] in
  let table := count_tokens stable_sort_desc tokens in
  (forall df, stable_sort_desc df ≡ₚ df)
  /\ (250 <= 1 -> rows_ge table 250 = table)
  /\ (len tokens < 250 -> rows_ge table 250 = []).
Proof.
  intros tokens table. split; [exact stable_sort_desc_perm|].
  exact (rows_ge_count_tokens_bounds stable_sort_desc stable_sort_desc_perm
           tokens 250).
Defined.

(** ** More on the stopword corpus, the scan and the threshold *)

(** X19.  [ensure_nltk_stopwords] never raises, not even when the
    download fails: the failure shows only later, as the [LookupError]
    of the next lookup.  It downloads when, and only when, the corpus is
    not installed, and once the corpus is at hand a further call does
    nothing. *)
Theorem ensure_nltk_stopwords_once (nltk_remote : option (list pystr)) (w : World) :
  let '(r, w1) := ensure_nltk_stopwords nltk_remote w in
  r = Returned tt
  /\ trace w1 = trace w ++ corpus_download w
  /\ nltk_corpus w1 = corpus_at_hand nltk_remote w
  /\ (corpus_at_hand nltk_remote w <> None ->
      ensure_nltk_stopwords nltk_remote w1 = (Returned tt, w1))
  /\ (corpus_at_hand nltk_remote w = None ->
      stopwords_words w1 = (Raised LookupError, w1)).
Proof.
  destruct w as [t [ws|]]; unfold corpus_at_hand, corpus_download; simpl.
  - rewrite app_nil_r. done.
  - destruct nltk_remote as [ws|]; simpl; done.
Qed.

Section SeparatorFacts.
Implicit Types (s : pystr).

Lemma span_alnum_sep s c (s2 : pystr) :
  is_alnum c = false ->
  span_alnum (s ++ c :: s2) = ((span_alnum s).1, (span_alnum s).2 ++ c :: s2).
Proof.
  intros Hc. induction s as [|x s IH]; simpl.
  - by rewrite Hc.
  - destruct (is_alnum x); [|done]. rewrite IH. by destruct (span_alnum s).
Qed.

Lemma match_at_sep s c (s2 : pystr) :
  is_alnum c = false -> c <> APOSTROPHE ->
  match_at (s ++ c :: s2) = match_at s.
Proof.
  intros Hc Hq. unfold match_at. rewrite span_alnum_sep by done.
  destruct (span_alnum s) as [run rest]. simpl.
  destruct run as [|x run]; [done|].
  destruct rest as [|q rest']; simpl.
  - by destruct (decide (c = APOSTROPHE)).
  - destruct (decide (q = APOSTROPHE)); [|done].
    by rewrite span_alnum_sep.
Qed.

(** X20.  A character that is neither of the class [[a-z0-9]] nor an
    apostrophe separates: the tokens of a text around it are the tokens
    of the part before it, followed by the tokens of the part after
    it. *)
Theorem findall_separator (s1 : pystr) c (s2 : pystr) :
  is_alnum c = false -> c <> APOSTROPHE ->
  findall (s1 ++ c :: s2) = findall s1 ++ findall s2.
Proof.
  intros Hc Hq. remember (length s1) as n eqn:Hn. revert s1 Hn.
  induction n as [n IH] using lt_wf_ind. intros s1 ->.
  destruct s1 as [|x s1].
  - simpl app. rewrite findall_skip; [done|].
    unfold match_at. by rewrite span_alnum_stop.
  - destruct (match_at (x :: s1)) as [tok|] eqn:Hm.
    + destruct (match_at_sound _ _ Hm) as [Htok [rest Hs]].
      pose proof (matches_pattern_nonempty _ Htok) as Hne.
      rewrite Hs in Hm |- *. rewrite <- app_assoc.
      rewrite findall_match by (by rewrite app_assoc, match_at_sep).
      rewrite (findall_match _ _ Hm). simpl. f_equal.
      eapply IH; [|done]. rewrite Hs, length_app.
      destruct tok; [done|]. simpl. lia.
    + rewrite (findall_skip _ _ Hm). simpl app.
      rewrite findall_skip
        by exact (eq_trans (match_at_sep (x :: s1) c s2 Hc Hq) Hm).
      eapply IH; [|done]. simpl. lia.
Qed.
End SeparatorFacts.

Lemma findall_separator_witness :
  is_alnum 32%N = false /\ 32%N <> APOSTROPHE
  /\ findall (lit "can't" ++ 32%N :: lit "reset it") = [lit "can't"; lit "reset"; lit "it"]
  /\ findall (lit "can't" ++ 32%N :: lit "reset it")
     = findall (lit "can't") ++ findall (lit "reset it").
Proof.
  split; [reflexivity|]. split; [done|]. split; [reflexivity|].
  exact (findall_separator (lit "can't") 32%N (lit "reset it") eq_refl
           ltac:(done)).
Defined.

(** X21.  Raising the threshold only removes rows, and thresholding
    twice is thresholding once with the larger threshold. *)
Theorem rows_ge_monotone (df : DataFrame) (t1 t2 : Z) :
  (t1 <= t2 -> sublist (rows_ge df t2) (rows_ge df t1))
  /\ rows_ge (rows_ge df t1) t2 = rows_ge df (Z.max t1 t2).
Proof.
  rewrite !rows_ge_filter. split.
  - intros Hle.
    rewrite <- (list_filter_filter_l _ (fun r => t1 <= total r)).
    + apply sublist_filter.
    + intros r. lia.
  - rewrite list_filter_filter. apply list_filter_iff. intros r. lia.
Qed.
